(** * audio-app-frontend: session cache and audio resource lifecycle

    A shallow embedding of the client-side logic of the audio web
    application: the auth helpers (utils/auth), the login page, the home
    page, the audio library page and the upload page.

    Conventions of the embedding.
    - React state is a record; a [setX] call is a function on the world.
      A functional updater [setX(prev => ...)] acts on the current state,
      whereas a plain read of a state variable inside a handler reads the
      value captured by the render that created the handler, passed here
      as the explicit argument [view].
    - An [await] on the network is a point where the handler is suspended;
      what the network answers is an argument of the resumed handler.
    - Everything a handler does to the outside (requests, alerts, events,
      object URLs, navigation) is appended to a trace of [Effect]s. *)

From Stdlib Require Import ZArith Ascii String List Bool Lia.
From stdpp Require Import base tactics option list gmap sets strings pretty.

#[local] Set Warnings "-clear-no-such-hyp".

(** ** JavaScript values shared by the pages *)

(** An exception value: [err.name] and [err.message]. *)
Record JsError := { err_name : string; err_message : string }.

(** [new Error(msg)] *)
Definition mkError (msg : string) : JsError :=
  {| err_name := "Error"; err_message := msg |}.

(** The settlement of an awaited promise. *)
Inductive Outcome (A : Type) :=
| Resolved (a : A)
| Rejected (e : JsError).
Arguments Resolved {A} a.
Arguments Rejected {A} e.

(** A response body of type [B] once decoded: the transfer of the body may
    fail, the text may not be JSON, or it decodes to a value. *)
Inductive Body (B : Type) :=
| BodyFails (e : JsError)
| BodyNotJson (raw : string)
| BodyJson (v : B).
Arguments BodyFails {B} e.
Arguments BodyNotJson {B} raw.
Arguments BodyJson {B} v.

Record Response (B : Type) := {
  status : nat;
  statusText : string;
  body : Body B
}.
Arguments status {B} r.
Arguments statusText {B} r.
Arguments body {B} r.

(** [response.ok]: the status is in the range 200-299. *)
Definition ok {B} (r : Response B) : bool :=
  (200 <=? status r) && (status r <? 300).

(** [await response.json()] *)
Definition json {B} (r : Response B) : Outcome B :=
  match body r with
  | BodyFails e => Rejected e
  | BodyNotJson _ =>
      Rejected {| err_name := "SyntaxError"; err_message := "Unexpected token" |}
  | BodyJson v => Resolved v
  end.

(** [await response.blob()] and [await response.text()]: only a failing
    transfer rejects. *)
Definition blob {B} (r : Response B) : Outcome unit :=
  match body r with
  | BodyFails e => Rejected e
  | _ => Resolved ()
  end.

(** An object URL: [n] stands for the n-th [blob:] URL handed out by
    [URL.createObjectURL], which never returns the same URL twice. *)
Definition Url := nat.

(** What a handler does to the outside. The path of a request is relative
    to the backend base URL ([SERVER_URL]). *)
Inductive Effect :=
| NetRequest (method path : string)
| CreateObjectURL (u : Url)
| RevokeObjectURL (u : Url)
| Alert (msg : string)
| RouterPush (path : string)
| DispatchEvent (name : string)
| AnchorClick (href : Url) (download : string)
| PauseAudio.

Global Instance Effect_eq_dec : EqDecision Effect.
Proof. solve_decision. Defined.

(** [s.includes('/')] *)
Fixpoint includes_slash (s : string) : bool :=
  match s with
  | EmptyString => false
  | String c s' => Ascii.eqb c "/" || includes_slash s'
  end.

(** [s.split('/')] *)
Fixpoint split_slash (s : string) : list string :=
  match s with
  | EmptyString => [EmptyString]
  | String c s' =>
      if Ascii.eqb c "/" then EmptyString :: split_slash s'
      else match split_slash s' with
           | [] => [String c EmptyString]
           | seg :: rest => String c seg :: rest
           end
  end.

(** [fileName.includes('/') ? fileName.split('/').pop() : fileName] *)
Definition actualFileName (fileName : string) : string :=
  if includes_slash fileName then List.last (split_slash fileName) EmptyString
  else fileName.

(** A template literal prints a number in decimal. *)
Definition num (n : nat) : string := pretty n.

(** ** The audio library page (AudioFilesPage) *)

Module AudioFiles.

Record AudioFile := {
  id : nat;
  title : string;
  description : option string;
  artist : string;
  audio_category : option string;
  duration : string;
  fileName : string;
  filePath : option string
}.

(** The [useState] cells of the component. [pendingFetches] is an object
    used as a set: the only value ever stored under a key is [true]. *)
Record Page := {
  audioFiles : list AudioFile;
  loading : bool;
  error : option string;
  expandedTrack : option nat;
  audioSources : gmap string Url;
  fetchingAudio : bool;
  pendingFetches : gset string
}.

(** What an object URL was created for (bookkeeping of the model). *)
Inductive Purpose :=
| ForStream (fileName : string)
| ForDownload (fileName : string).

(** The component state together with the browser around it. *)
Record World := {
  page : Page;
  live : gset Url;               (* object URLs created and not revoked *)
  minted : nat;                  (* how many object URLs were created *)
  purpose : gmap Url Purpose;
  playerMounted : bool;          (* audioElementRef.current is set *)
  effectSources : gmap string Url; (* audioSources captured by the effect *)
  trace : list Effect
}.

Definition with_page (f : Page → Page) (w : World) : World :=
  {| page := f (page w); live := live w; minted := minted w;
     purpose := purpose w; playerMounted := playerMounted w;
     effectSources := effectSources w; trace := trace w |}.

Definition emit (e : Effect) (w : World) : World :=
  {| page := page w; live := live w; minted := minted w;
     purpose := purpose w; playerMounted := playerMounted w;
     effectSources := effectSources w; trace := trace w ++ [e] |}.

Definition setAudioFiles (f : list AudioFile → list AudioFile) : World → World :=
  with_page (λ p,
    {| audioFiles := f (audioFiles p); loading := loading p; error := error p;
       expandedTrack := expandedTrack p; audioSources := audioSources p;
       fetchingAudio := fetchingAudio p; pendingFetches := pendingFetches p |}).

Definition setLoading (b : bool) : World → World :=
  with_page (λ p,
    {| audioFiles := audioFiles p; loading := b; error := error p;
       expandedTrack := expandedTrack p; audioSources := audioSources p;
       fetchingAudio := fetchingAudio p; pendingFetches := pendingFetches p |}).

Definition setError (e : option string) : World → World :=
  with_page (λ p,
    {| audioFiles := audioFiles p; loading := loading p; error := e;
       expandedTrack := expandedTrack p; audioSources := audioSources p;
       fetchingAudio := fetchingAudio p; pendingFetches := pendingFetches p |}).

Definition setExpandedTrack (t : option nat) : World → World :=
  with_page (λ p,
    {| audioFiles := audioFiles p; loading := loading p; error := error p;
       expandedTrack := t; audioSources := audioSources p;
       fetchingAudio := fetchingAudio p; pendingFetches := pendingFetches p |}).

Definition setAudioSources (f : gmap string Url → gmap string Url) : World → World :=
  with_page (λ p,
    {| audioFiles := audioFiles p; loading := loading p; error := error p;
       expandedTrack := expandedTrack p; audioSources := f (audioSources p);
       fetchingAudio := fetchingAudio p; pendingFetches := pendingFetches p |}).

Definition setFetchingAudio (b : bool) : World → World :=
  with_page (λ p,
    {| audioFiles := audioFiles p; loading := loading p; error := error p;
       expandedTrack := expandedTrack p; audioSources := audioSources p;
       fetchingAudio := b; pendingFetches := pendingFetches p |}).

Definition setPendingFetches (f : gset string → gset string) : World → World :=
  with_page (λ p,
    {| audioFiles := audioFiles p; loading := loading p; error := error p;
       expandedTrack := expandedTrack p; audioSources := audioSources p;
       fetchingAudio := fetchingAudio p; pendingFetches := f (pendingFetches p) |}).

(** [URL.createObjectURL(blob)]: a fresh URL, live until revoked. *)
Definition createObjectURL (why : Purpose) (w : World) : World * Url :=
  let u := minted w in
  ({| page := page w; live := {[u]} ∪ live w; minted := S (minted w);
      purpose := <[u:=why]> (purpose w); playerMounted := playerMounted w;
      effectSources := effectSources w;
      trace := trace w ++ [CreateObjectURL u] |}, u).

(** [URL.revokeObjectURL(url)]; revoking twice is harmless. *)
Definition revokeObjectURL (u : Url) (w : World) : World :=
  {| page := page w; live := live w ∖ {[u]}; minted := minted w;
     purpose := purpose w; playerMounted := playerMounted w;
     effectSources := effectSources w;
     trace := trace w ++ [RevokeObjectURL u] |}.

(** The state of the component when it mounts. *)
Definition initial : World :=
  {| page := {| audioFiles := []; loading := true; error := None;
                expandedTrack := None; audioSources := ∅;
                fetchingAudio := false; pendingFetches := ∅ |};
     live := ∅; minted := 0; purpose := ∅; playerMounted := false;
     effectSources := ∅; trace := [] |}.

(** *** fetchAudioSource *)

(** Where an [async] handler stands after running as far as it can. *)
Inductive Step (A : Type) :=
| Returned (a : A)
| Awaiting.
Arguments Returned {A} a.
Arguments Awaiting {A}.

(** The [finally] block of fetchAudioSource. *)
Definition fetchAudioSource_finally (fileName : string) (w : World) : World :=
  setPendingFetches (λ prev, prev ∖ {[fileName]}) (setFetchingAudio false w).

(** The [catch] block of fetchAudioSource. *)
Definition fetchAudioSource_catch (err : JsError) (w : World) : World :=
  if String.eqb (err_name err) "AbortError" then w
  else emit (Alert ("Failed to load audio: " +:+ err_message err)) w.

(** From the call up to the [await fetch(...)]. *)
Definition fetchAudioSource_start (view : Page) (fileName : string) (w : World)
  : World * Step (option Url) :=
  if decide (fileName ∈ pendingFetches view) then
    (fetchAudioSource_finally fileName w, Returned None)
  else
    let w := setFetchingAudio true w in
    let w := setPendingFetches (λ prev, {[fileName]} ∪ prev) w in
    let w := emit (NetRequest "GET" ("/stream/" +:+ actualFileName fileName)) w in
    (w, Awaiting).

(** From the settlement of [fetch] to the end of the handler. *)
Definition fetchAudioSource_resume (view : Page) (fileName : string)
    (reply : Outcome (Response unit)) (w : World) : World * option Url :=
  match reply with
  | Rejected err =>
      (fetchAudioSource_finally fileName (fetchAudioSource_catch err w), None)
  | Resolved response =>
      if negb (ok response) then
        let err := mkError ("Error streaming audio: " +:+ num (status response)
                            +:+ " " +:+ statusText response) in
        (fetchAudioSource_finally fileName (fetchAudioSource_catch err w), None)
      else
        let w := match audioSources view !! fileName with
                 | Some old => revokeObjectURL old w
                 | None => w
                 end in
        match blob response with
        | Rejected err =>
            (fetchAudioSource_finally fileName (fetchAudioSource_catch err w), None)
        | Resolved _ =>
            let '(w, url) := createObjectURL (ForStream fileName) w in
            let w := setAudioSources (λ prev, <[fileName:=url]> prev) w in
            (fetchAudioSource_finally fileName w, Some url)
        end
  end.

(** A call that runs to completion before anything else happens. *)
Definition fetchAudioSource (view : Page) (fileName : string)
    (reply : Outcome (Response unit)) (w : World) : World * option Url :=
  match fetchAudioSource_start view fileName w with
  | (w, Returned r) => (w, r)
  | (w, Awaiting) => fetchAudioSource_resume view fileName reply w
  end.

(** *** toggleTrack *)

(** [audioElementRef.current.audio.current.pause()] inside its try block. *)
Definition pausePlayer (w : World) : World :=
  if playerMounted w then emit PauseAudio w else w.

Definition toggleTrack (view : Page) (audioId : nat)
    (reply : Outcome (Response unit)) (w : World) : World :=
  if decide (expandedTrack view = Some audioId) then
    pausePlayer (setExpandedTrack None w)
  else
    let w := if decide (expandedTrack view = None) then w else pausePlayer w in
    let w := setExpandedTrack (Some audioId) w in
    match List.find (λ file, id file =? audioId) (audioFiles view) with
    | Some audioFile =>
        match audioSources view !! fileName audioFile with
        | Some _ => w
        | None => (fetchAudioSource view (fileName audioFile) reply w).1
        end
    | None => w
    end.

(** *** handlePlayError *)

(** [targetError] is the truth value of [e.target.error]. *)
Definition handlePlayError (view : Page) (targetError : bool) (fileName : string)
    (reply : Outcome (Response unit)) (w : World) : World :=
  if negb (bool_decide (is_Some (audioSources view !! fileName))) || targetError then
    let w := match audioSources view !! fileName with
             | Some old =>
                 setAudioSources (λ prev, delete fileName prev) (revokeObjectURL old w)
             | None => w
             end in
    if decide (fileName ∈ pendingFetches view) then w
    else (fetchAudioSource view fileName reply w).1
  else w.

(** *** handleDelete *)

(** The fields of the DELETE answer that the handler reads: a truthy
    [result.error] is [Some] of its text. *)
Record DeleteResult := { result_error : option string }.

Definition handleDelete_catch (err : JsError) (w : World) : World :=
  emit (Alert ("Failed to delete audio: " +:+ err_message err)) w.

(** JavaScript truthiness of [expandedTrack]: [null] and [0] are falsy. *)
Definition truthy_track (t : option nat) : bool :=
  match t with
  | Some (S _) => true
  | _ => false
  end.

Definition handleDelete (view : Page) (audioFileName : string)
    (reply : Outcome (Response DeleteResult)) (w : World) : World :=
  let w := setLoading true w in
  let w := emit (NetRequest "DELETE" ("/delete/" +:+ actualFileName audioFileName)) w in
  let w :=
    match reply with
    | Rejected err => handleDelete_catch err w
    | Resolved response =>
        if negb (ok response) then
          handleDelete_catch
            (mkError ("Error deleting audio: " +:+ num (status response)
                      +:+ " " +:+ statusText response)) w
        else
          (* response.json().catch(() => ({})) *)
          let result := match json response with
                        | Resolved r => r
                        | Rejected _ => {| result_error := None |}
                        end in
          match result_error result with
          | Some msg => handleDelete_catch (mkError msg) w
          | None =>
              let w := setAudioFiles
                         (filter (λ file, fileName file ≠ audioFileName)) w in
              let w := match audioSources view !! audioFileName with
                       | Some url =>
                           setAudioSources (λ prev, delete audioFileName prev)
                             (revokeObjectURL url w)
                       | None => w
                       end in
              let w :=
                if truthy_track (expandedTrack view) &&
                   bool_decide
                     (fileName <$> List.find
                        (λ file, bool_decide (Some (id file) = expandedTrack view))
                        (audioFiles view) = Some audioFileName)
                then setExpandedTrack None w else w in
              emit (Alert ("Successfully deleted " +:+ actualFileName audioFileName)) w
          end
    end in
  setLoading false w.

(** *** handleDownload *)

Definition handleDownload_catch (err : JsError) (w : World) : World :=
  emit (Alert ("Failed to download audio: " +:+ err_message err)) w.

Definition handleDownload (fileName title : string)
    (reply : Outcome (Response unit)) (w : World) : World :=
  let w := emit (NetRequest "GET" ("/download/" +:+ actualFileName fileName)) w in
  match reply with
  | Rejected err => handleDownload_catch err w
  | Resolved response =>
      if negb (ok response) then
        handleDownload_catch
          (mkError ("Error downloading audio: " +:+ num (status response)
                    +:+ " " +:+ statusText response)) w
      else
        match blob response with
        | Rejected err => handleDownload_catch err w
        | Resolved _ =>
            let '(w, url) := createObjectURL (ForDownload fileName) w in
            emit (AnchorClick url title) w
        end
  end.

(** *** The cleanup effect on [audioSources] *)

(** The cleanup function returned by the effect: pause the player and
    revoke every URL of the [audioSources] the effect captured. Every stored
    URL comes from [createObjectURL], so the [blob:] test passes. The model
    does not tell the player the effect captured from the current one. *)
Definition effect_cleanup (w : World) : World :=
  foldl (λ w entry, revokeObjectURL entry.2 w) (pausePlayer w)
        (map_to_list (effectSources w)).

(** A render after which the effect runs again: the cleanup of the previous
    run, then the capture of the current [audioSources]. *)
Definition rerender (w : World) : World :=
  let w := effect_cleanup w in
  {| page := page w; live := live w; minted := minted w; purpose := purpose w;
     playerMounted := playerMounted w; effectSources := audioSources (page w);
     trace := trace w |}.

(** *** fetchAudioFiles *)

(** [s] is non-empty and holds neither a slash nor a dot: [[^/.]+$]. *)
Fixpoint extension_tail (s : string) : bool :=
  match s with
  | EmptyString => false
  | String c EmptyString => negb (Ascii.eqb c "/" || Ascii.eqb c ".")
  | String c s' => negb (Ascii.eqb c "/" || Ascii.eqb c ".") && extension_tail s'
  end.

(** The replace call with the pattern [\.[^/.]+$]: drop the extension. *)
Fixpoint strip_extension (s : string) : string :=
  match s with
  | EmptyString => EmptyString
  | String c s' =>
      if Ascii.eqb c "." && extension_tail s' then EmptyString
      else String c (strip_extension s')
  end.

(** the replace call with the global pattern [_]: underscores become spaces. *)
Fixpoint underscores_to_spaces (s : string) : string :=
  match s with
  | EmptyString => EmptyString
  | String c s' =>
      String (if Ascii.eqb c "_" then " "%char else c) (underscores_to_spaces s')
  end.

Definition display_title (s : string) : string :=
  underscores_to_spaces (strip_extension s).

(** [o || d] for a field that is a string or missing. *)
Definition or_else (o : option string) (d : string) : string :=
  match o with
  | Some s => if String.eqb s EmptyString then d else s
  | None => d
  end.

(** A metadata record of the server's list, with the fields the page reads. *)
Record FileRecord := {
  r_fileName : option string;
  r_title : option string;
  r_audio_description : option string;
  r_artist : option string;
  r_audio_category : option string;
  r_audio_duration : option string;
  r_filePath : option string
}.

Inductive FileEntry :=
| EntryString (file : string)
| EntryObject (file : FileRecord)
| EntryOther.

(** The decoded answer of /list-files, as far as the page inspects it. *)
Inductive ListData :=
| DataNoFilesArray
| DataFiles (files : list FileEntry).

Definition formatFile (index : nat) (file : FileEntry) : AudioFile :=
  match file with
  | EntryString file =>
      {| id := index + 1; title := display_title file; description := Some EmptyString;
         artist := "Unknown Artist"; audio_category := Some EmptyString;
         duration := "--:--"; fileName := file; filePath := Some EmptyString |}
  | EntryObject file =>
      {| id := index + 1;
         title := display_title
                    (or_else (r_fileName file)
                       (or_else (r_title file) ("Track " +:+ num (index + 1))));
         description := Some (or_else (r_audio_description file) EmptyString);
         artist := or_else (r_artist file) "Unknown Artist";
         audio_category := Some (or_else (r_audio_category file) EmptyString);
         duration := or_else (r_audio_duration file) "--:--";
         fileName := or_else (r_fileName file) ("track_" +:+ num (index + 1) +:+ ".mp3");
         filePath := Some (or_else (r_filePath file) EmptyString) |}
  | EntryOther =>
      {| id := index + 1; title := "Track " +:+ num (index + 1);
         description := None; artist := "Unknown Artist"; audio_category := None;
         duration := "--:--";
         fileName := "track_" +:+ num (index + 1) +:+ ".mp3"; filePath := None |}
  end.

Definition sample (i : nat) (t a d f : string) : AudioFile :=
  {| id := i; title := t; description := None; artist := a;
     audio_category := None; duration := d; fileName := f; filePath := None |}.

(** The fallback data of the [catch] block. *)
Definition fallbackFiles : list AudioFile :=
  [ sample 1 "Trombone Duet" "John Doe" "3:45" "trombone_duet.mp3";
    sample 2 "Piano Sonata" "Jane Smith" "5:20" "piano_sonata.mp3";
    sample 3 "Drum Solo" "Mike Johnson" "2:15" "drum_solo.mp3";
    sample 4 "Ambient Sounds" "Sarah Williams" "4:30" "ambient_sounds.mp3";
    sample 5 "Electronic Beat" "David Brown" "3:10" "electronic_beat.mp3" ].

Definition fetchAudioFiles_catch (err : JsError) (w : World) : World :=
  setAudioFiles (λ _, fallbackFiles) (setError (Some (err_message err)) w).

Definition fetchAudioFiles (reply : Outcome (Response ListData)) (w : World) : World :=
  let w := setLoading true w in
  let w := emit (NetRequest "GET" "/list-files") w in
  let w :=
    match reply with
    | Rejected err => fetchAudioFiles_catch err w
    | Resolved response =>
        if negb (ok response) then
          fetchAudioFiles_catch
            (mkError ("Error fetching audio files: " +:+ statusText response))
            (emit (RouterPush "/login") w)
        else
          match json response with
          | Rejected err => fetchAudioFiles_catch err w
          | Resolved DataNoFilesArray =>
              fetchAudioFiles_catch
                (mkError "Server response is not in the expected format") w
          | Resolved (DataFiles files) =>
              setAudioFiles (λ _, imap formatFile files) w
          end
    end in
  setLoading false w.

(** *** Sequences of operations *)

(** One user-level operation of the page, run to completion on the state
    of the latest render. [OpRerender] is a render after which the cleanup
    effect on [audioSources] runs again. *)
Inductive Op :=
| OpList (reply : Outcome (Response ListData))
| OpFetch (fileName : string) (reply : Outcome (Response unit))
| OpToggle (audioId : nat) (reply : Outcome (Response unit))
| OpPlayError (targetError : bool) (fileName : string)
              (reply : Outcome (Response unit))
| OpDelete (fileName : string) (reply : Outcome (Response DeleteResult))
| OpDownload (fileName title : string) (reply : Outcome (Response unit))
| OpRerender.

Definition run_op (w : World) (op : Op) : World :=
  match op with
  | OpList reply => fetchAudioFiles reply w
  | OpFetch fileName reply => (fetchAudioSource (page w) fileName reply w).1
  | OpToggle audioId reply => toggleTrack (page w) audioId reply w
  | OpPlayError targetError fileName reply =>
      handlePlayError (page w) targetError fileName reply w
  | OpDelete fileName reply => handleDelete (page w) fileName reply w
  | OpDownload fileName title reply => handleDownload fileName title reply w
  | OpRerender => rerender w
  end.

Definition run (ops : list Op) (w : World) : World := foldl run_op w ops.

(** *** Vocabulary of the properties *)

(** [u] is a live object URL that was created for streaming [fileName]. *)
Definition live_handle (w : World) (fileName : string) (u : Url) : Prop :=
  u ∈ live w ∧ purpose w !! u = Some (ForStream fileName).

(** A streaming answer from which a URL is made. *)
Definition streams (reply : Outcome (Response unit)) : bool :=
  match reply with
  | Resolved response =>
      ok response && match blob response with Resolved _ => true | _ => false end
  | Rejected _ => false
  end.

(** The world in which a first fetch of [a.mp3] has been started and has not
    been answered yet. *)
Definition one_outstanding : World :=
  (fetchAudioSource_start (page initial) "a.mp3" initial).1.

(** The invariant of the page: every live streaming URL is the one the
    handle map stores for its file; the handle map and the map captured by
    the cleanup effect hold streaming URLs only; every URL was handed out
    before; and a download URL stays live. *)
Record Inv (w : World) : Prop := {
  inv_owned : ∀ u f, live_handle w f u → audioSources (page w) !! f = Some u;
  inv_fresh : ∀ u, u ∈ live w → u < minted w;
  inv_stored : ∀ f u, audioSources (page w) !! f = Some u →
                      purpose w !! u = Some (ForStream f);
  inv_captured : ∀ f u, effectSources w !! f = Some u →
                        purpose w !! u = Some (ForStream f);
  inv_purpose : ∀ u p, purpose w !! u = Some p → u < minted w;
  inv_download : ∀ u f, purpose w !! u = Some (ForDownload f) → u ∈ live w
}.

(** What a handler needs of the render it closes over: the handle that the
    current map holds for the file, if any, is the one the render saw, and
    the handle the render saw is a streaming URL of that file. *)
Definition view_ok (view : Page) (f : string) (w : World) : Prop :=
  (∀ old, audioSources (page w) !! f = Some old →
          audioSources view !! f = Some old)
  ∧ (∀ old, audioSources view !! f = Some old →
            purpose w !! old = Some (ForStream f)).

(** A streaming answer with status 200 and a readable body. *)
Definition good_stream : Outcome (Response unit) :=
  Resolved {| status := 200; statusText := "OK"; body := BodyJson () |}.



(** A confirmed DELETE, and a list of two files. *)
Definition delete_confirmed : Outcome (Response DeleteResult) :=
  Resolved {| status := 200; statusText := "OK";
              body := BodyJson {| result_error := None |} |}.

Definition listed_two : Outcome (Response ListData) :=
  Resolved {| status := 200; statusText := "OK";
              body := BodyJson (DataFiles [EntryString "a.mp3"; EntryString "b.mp3"]) |}.

Inductive ListFailure := NotOkResponse | MalformedResponse | ThrownError.

(** How the list request fails, if it does, with the message of the error
    that reaches the [catch] block. *)
Definition list_failure (reply : Outcome (Response ListData))
  : option (ListFailure * string) :=
  match reply with
  | Rejected err => Some (ThrownError, err_message err)
  | Resolved response =>
      if negb (ok response) then
        Some (NotOkResponse, "Error fetching audio files: " +:+ statusText response)
      else
        match json response with
        | Rejected err => Some (ThrownError, err_message err)
        | Resolved DataNoFilesArray =>
            Some (MalformedResponse, "Server response is not in the expected format")
        | Resolved (DataFiles _) => None
        end
  end.

(** [w'] was reached from [w]: URLs handed out in [w] keep their purpose. *)
Definition extends (w w' : World) : Prop :=
  minted w ≤ minted w'
  ∧ ∀ u, u < minted w → purpose w' !! u = purpose w !! u.

End AudioFiles.

(** ** The auth helpers (utils/auth) *)

Module Auth.

(** The fields of the current-user record that the client reads. *)
Record User := { username : string; role : string }.

(** The session store of the tab, the module-level variables of utils/auth
    and the wall clock ([Date.now()], in milliseconds). *)
Record State := {
  sessionStorage : gmap string string;
  lastAuthCheck : Z;
  userCache : option User;
  lastUserFetch : Z;
  clock : Z;
  trace : list Effect
}.

Definition AUTH_CACHE_DURATION : Z := 60000.
Definition USER_CACHE_DURATION : Z := 300000.

Definition with_storage (f : gmap string string → gmap string string)
    (st : State) : State :=
  {| sessionStorage := f (sessionStorage st); lastAuthCheck := lastAuthCheck st;
     userCache := userCache st; lastUserFetch := lastUserFetch st;
     clock := clock st; trace := trace st |}.

Definition getItem (key : string) (st : State) : option string :=
  sessionStorage st !! key.
Definition setItem (key value : string) : State → State :=
  with_storage (λ m, <[key:=value]> m).
Definition removeItem (key : string) : State → State :=
  with_storage (λ m, delete key m).

Definition set_lastAuthCheck (t : Z) (st : State) : State :=
  {| sessionStorage := sessionStorage st; lastAuthCheck := t;
     userCache := userCache st; lastUserFetch := lastUserFetch st;
     clock := clock st; trace := trace st |}.

Definition set_userCache (u : option User) (st : State) : State :=
  {| sessionStorage := sessionStorage st; lastAuthCheck := lastAuthCheck st;
     userCache := u; lastUserFetch := lastUserFetch st;
     clock := clock st; trace := trace st |}.

Definition set_lastUserFetch (t : Z) (st : State) : State :=
  {| sessionStorage := sessionStorage st; lastAuthCheck := lastAuthCheck st;
     userCache := userCache st; lastUserFetch := t;
     clock := clock st; trace := trace st |}.

Definition emit (e : Effect) (st : State) : State :=
  {| sessionStorage := sessionStorage st; lastAuthCheck := lastAuthCheck st;
     userCache := userCache st; lastUserFetch := lastUserFetch st;
     clock := clock st; trace := trace st ++ [e] |}.

(** Time passes, for instance while a request is awaited. *)
Definition tick (dt : Z) (st : State) : State :=
  {| sessionStorage := sessionStorage st; lastAuthCheck := lastAuthCheck st;
     userCache := userCache st; lastUserFetch := lastUserFetch st;
     clock := (clock st + dt)%Z; trace := trace st |}.

(** [sessionStorage.getItem('token') || null] *)
Definition getToken (st : State) : option string :=
  match getItem "token" st with
  | Some t => if String.eqb t EmptyString then None else Some t
  | None => None
  end.

(** [isAuthenticated()], the synchronous check. *)
Definition isAuthenticated (st : State) : bool :=
  bool_decide (is_Some (getToken st))
  && bool_decide (getItem "isAuthenticated" st = Some "true").

Definition logout (st : State) : State :=
  let st := removeItem "token" st in
  let st := removeItem "isAuthenticated" st in
  let st := removeItem "username" st in
  let st := removeItem "_authDispatchedEvent" st in
  let st := set_lastAuthCheck 0 st in
  let st := set_userCache None st in
  let st := set_lastUserFetch 0 st in
  emit (DispatchEvent "logout") st.

(** *** validateTokenAsync *)

(** Up to the [await fetch(...)]. *)
Definition validateTokenAsync_start (token : string) (st : State) : State :=
  emit (NetRequest "GET" "/users/me") (set_lastAuthCheck (clock st) st).

(** The [catch] block. *)
Definition validateTokenAsync_catch (st : State) : State * bool :=
  (set_userCache None st, false).

(** From the settlement of [fetch] to the end. *)
Definition validateTokenAsync_finish (reply : Outcome (Response User))
    (st : State) : State * bool :=
  match reply with
  | Rejected _ => validateTokenAsync_catch st
  | Resolved response =>
      if ok response then
        match json response with
        | Rejected _ => validateTokenAsync_catch st
        | Resolved userData =>
            let st := setItem "isAuthenticated" "true" st in
            let st := if String.eqb (username userData) EmptyString then st
                      else setItem "username" (username userData) st in
            let st := set_userCache (Some userData) st in
            let st := set_lastUserFetch (clock st) st in
            let st :=
              if bool_decide (getItem "_authDispatchedEvent" st = Some "true")
              then st
              else emit (DispatchEvent "login")
                     (setItem "_authDispatchedEvent" "true" st) in
            (st, true)
        end
      else
        (* console.error(..., await response.text()) comes first *)
        match blob response with
        | Rejected _ => validateTokenAsync_catch st
        | Resolved _ =>
            let st := removeItem "isAuthenticated" st in
            let st := removeItem "username" st in
            let st := removeItem "token" st in
            let st := removeItem "_authDispatchedEvent" st in
            (set_userCache None st, false)
        end
  end.

(** An awaited verification: the answer arrives after [latency]. *)
Definition validateTokenAsync (token : string) (latency : Z)
    (reply : Outcome (Response User)) (st : State) : State * bool :=
  validateTokenAsync_finish reply (tick latency (validateTokenAsync_start token st)).

(** *** checkAuthStatus *)

(** What checkAuthStatus has done when it first yields: it returned, it
    returned after starting a verification that is still in flight, or it is
    waiting for the verification it started. *)
Inductive AuthStep :=
| AuthDone (result : bool)
| AuthDoneVerifying (result : bool)
| AuthVerifying.

Definition checkAuthStatus_start (st : State) : State * AuthStep :=
  match getToken st with
  | None =>
      (removeItem "username" (removeItem "isAuthenticated" st), AuthDone false)
  | Some token =>
      let storedAuthStatus :=
        bool_decide (getItem "isAuthenticated" st = Some "true") in
      let now := clock st in
      let shouldUseCache := (now - lastAuthCheck st <? AUTH_CACHE_DURATION)%Z in
      if storedAuthStatus then
        if shouldUseCache then (st, AuthDone true)
        else (validateTokenAsync_start token st, AuthDoneVerifying true)
      else (validateTokenAsync_start token st, AuthVerifying)
  end.

(** The call as its caller sees it: the state when the promise settles, the
    result, and whether a verification is still in flight. [latency] and
    [reply] describe the answer to the verification, if one is awaited. *)
Definition checkAuthStatus (latency : Z) (reply : Outcome (Response User))
    (st : State) : State * bool * bool :=
  match checkAuthStatus_start st with
  | (st, AuthDone result) => (st, result, false)
  | (st, AuthDoneVerifying result) => (st, result, true)
  | (st, AuthVerifying) =>
      let '(st, result) := validateTokenAsync_finish reply (tick latency st) in
      (st, result, false)
  end.

(** *** getCurrentUser *)

Inductive UserStep :=
| UserDone (user : option User)
| UserFetching (now : Z).

(** Up to the [await fetch(...)] of the current-user endpoint. *)
Definition getCurrentUser_start (forceRefresh : bool) (latency : Z)
    (reply : Outcome (Response User)) (st : State) : State * UserStep * bool :=
  match getToken st with
  | None => (st, UserDone None, false)
  | Some token =>
      let '(st, isAuth, verifying) := checkAuthStatus latency reply st in
      if negb isAuth then (st, UserDone None, verifying)
      else
        let now := clock st in
        if negb forceRefresh && bool_decide (is_Some (userCache st))
           && (now - lastUserFetch st <? USER_CACHE_DURATION)%Z
        then (st, UserDone (userCache st), verifying)
        else (emit (NetRequest "GET" "/users/me") st, UserFetching now, verifying)
  end.

(** From the settlement of that [fetch] to the end; [now] is the time read
    before the request was sent. *)
Definition getCurrentUser_finish (now : Z) (reply : Outcome (Response User))
    (st : State) : State * option User :=
  match reply with
  | Rejected _ => (st, None)
  | Resolved response =>
      if ok response then
        match json response with
        | Rejected _ => (st, None)
        | Resolved userData =>
            (set_lastUserFetch now (set_userCache (Some userData) st),
             Some userData)
        end
      else
        let st := set_userCache None st in
        let st := if status response =? 401 then logout st else st in
        (st, None)
  end.

(** A fresh tab at time [now]. *)
Definition initial (now : Z) : State :=
  {| sessionStorage := ∅; lastAuthCheck := 0; userCache := None;
     lastUserFetch := 0; clock := now; trace := [] |}.

(** How many times the [login] event was dispatched. *)
Definition login_events (tr : list Effect) : nat :=
  length (filter (λ e, e = DispatchEvent "login") tr).

(** How many requests were sent. *)
Definition is_request (e : Effect) : bool :=
  match e with NetRequest _ _ => true | _ => false end.

Definition requests (tr : list Effect) : nat :=
  length (List.filter is_request tr).

End Auth.

(** ** The login page *)

Module Login.

Record Form := {
  username : string;
  password : string;
  error : string;
  isLoading : bool
}.

(** The fields of the answer of /login that the page reads. *)
Record LoginBody := { access_token : string; detail : option string }.

Definition setError (e : string) (f : Form) : Form :=
  {| username := username f; password := password f; error := e;
     isLoading := isLoading f |}.
Definition setIsLoading (b : bool) (f : Form) : Form :=
  {| username := username f; password := password f; error := error f;
     isLoading := b |}.

(** [o || d] *)
Definition or_else (o : option string) (d : string) : string :=
  match o with
  | Some s => if String.eqb s EmptyString then d else s
  | None => d
  end.

Definition handleLogin_catch (form : Form) : Form :=
  setError "Network error. Please check your connection and try again." form.

Definition handleLogin (form : Form) (reply : Outcome (Response LoginBody))
    (st : Auth.State) : Form * Auth.State :=
  let form := setError EmptyString form in
  if String.eqb (username form) EmptyString || String.eqb (password form) EmptyString
  then (setError "Username and password are required." form, st)
  else
    let form := setIsLoading true form in
    let st := Auth.emit (NetRequest "POST" "/login") st in
    let '(form, st) :=
      match reply with
      | Rejected _ => (handleLogin_catch form, st)
      | Resolved response =>
          if ok response then
            match json response with
            | Rejected _ => (handleLogin_catch form, st)
            | Resolved data =>
                let st := Auth.setItem "token" (access_token data) st in
                let st := Auth.setItem "isAuthenticated" "true" st in
                let st := Auth.setItem "username" (username form) st in
                let st := Auth.emit (DispatchEvent "login") st in
                let st := Auth.emit (RouterPush "/") st in
                (form, st)
            end
          else
            (* response.json().catch(() => ({})) *)
            let errorData := match json response with
                             | Resolved d => detail d
                             | Rejected _ => None
                             end in
            if status response =? 401
            then (setError "Invalid username or password." form, st)
            else (setError (or_else errorData "Login failed. Please try again.")
                    form, st)
      end in
    (setIsLoading false form, st).

End Login.

(** ** The home page *)

Module Home.

Record Page := { loading : bool; isAuth : bool }.

(** The [checkAuth] function of the mount effect. *)
Definition checkAuth (p : Page) (st : Auth.State) : Page * Auth.State :=
  let authStatus := Auth.isAuthenticated st in
  let st := if negb authStatus then Auth.emit (RouterPush "/login") st
            else Auth.emit (DispatchEvent "login") st in
  ({| loading := false; isAuth := authStatus |}, st).

End Home.

(** ** Sample sessions *)

Module Session.
Import Auth.

(** A store left behind without a token: the flags are still set. *)
Definition stale_session : State :=
  setItem "_authDispatchedEvent" "true"
    (setItem "username" "bob" (setItem "isAuthenticated" "true" (initial 1000000))).

Definition alice : User := {| username := "alice"; role := "admin" |}.

(** A verified session with a cached user, half a minute after the last
    verification. *)
Definition cached_session : State :=
  set_userCache (Some alice)
    (set_lastUserFetch 1000000
       (set_lastAuthCheck 1000000
          (setItem "username" "alice"
             (setItem "isAuthenticated" "true"
                (setItem "token" "tok" (initial 1030000)))))).

Definition network_down : Outcome (Response User) :=
  Rejected {| err_name := "TypeError"; err_message := "Failed to fetch" |}.

Definition login_form : Login.Form :=
  {| Login.username := "alice"; Login.password := "secret";
     Login.error := EmptyString; Login.isLoading := false |}.

Definition login_accepted : Outcome (Response Login.LoginBody) :=
  Resolved {| status := 200; statusText := "OK";
              body := BodyJson {| Login.access_token := "tok";
                                  Login.detail := None |} |}.

Definition me_alice : Outcome (Response User) :=
  Resolved {| status := 200; statusText := "OK"; body := BodyJson alice |}.

(** The session right after a successful login in a fresh tab. *)
Definition logged_in : State :=
  (Login.handleLogin login_form login_accepted (initial 1000000)).2.

(** The login page navigates to the home page, which mounts. *)
Definition at_home : State :=
  (Home.checkAuth {| Home.loading := true; Home.isAuth := false |} logged_in).2.

(** The layout's check finds the cache expired and verifies in the
    background; the answer arrives after five seconds. *)
Definition verified : State :=
  (validateTokenAsync_finish me_alice
     (tick 5000 (checkAuthStatus_start at_home).1)).1.

End Session.

(** ** The upload page *)

Module Upload.

Record File := { name : string; type : string }.

Record Page := {
  file : option File;
  isUploading : bool;
  uploadProgress : nat;
  message : string;
  error : string;
  audioDescription : string;
  audioCategory : string;
  audioLength : option nat
}.

(** What [JSON.parse(xhr.responseText)] gives: it throws, or it yields
    [null], or it yields a value whose [filename] and [detail] properties
    are read (a missing or falsy property is [None]). *)
Inductive Parsed :=
| ParseError
| ParsedNull
| ParsedObject (filename detail : option string).

Definition setError (e : string) (p : Page) : Page :=
  {| file := file p; isUploading := isUploading p;
     uploadProgress := uploadProgress p; message := message p; error := e;
     audioDescription := audioDescription p; audioCategory := audioCategory p;
     audioLength := audioLength p |}.

Definition setIsUploading (b : bool) (p : Page) : Page :=
  {| file := file p; isUploading := b;
     uploadProgress := uploadProgress p; message := message p; error := error p;
     audioDescription := audioDescription p; audioCategory := audioCategory p;
     audioLength := audioLength p |}.

(** The four setters at the start of an upload. *)
Definition startUploading (p : Page) : Page :=
  {| file := file p; isUploading := true; uploadProgress := 0;
     message := EmptyString; error := EmptyString;
     audioDescription := audioDescription p; audioCategory := audioCategory p;
     audioLength := audioLength p |}.

(** The setters of a successful upload. *)
Definition uploaded (msg : string) (p : Page) : Page :=
  {| file := None; isUploading := isUploading p; uploadProgress := 100;
     message := msg; error := error p;
     audioDescription := EmptyString; audioCategory := EmptyString;
     audioLength := None |}.

(** handleSubmit up to [xhr.send(formData)]; [currentUser] is what the
    awaited getCurrentUser() gave. The last component tells whether the
    request was sent. *)
Definition handleSubmit (currentUser : option Auth.User) (p : Page)
    (tr : list Effect) : Page * list Effect * bool :=
  match file p with
  | None => (setError "Please select a file to upload" p, tr, false)
  | Some _ =>
      if String.eqb (audioCategory p) EmptyString
      then (setError "Please select an audio category" p, tr, false)
      else
        let p := startUploading p in
        match currentUser with
        | None => (p, tr ++ [RouterPush "/login"], false)
        | Some _ => (p, tr ++ [NetRequest "POST" "/upload"], true)
        end
  end.

(** A property printed by a template literal. *)
Definition show (o : option string) : string :=
  match o with
  | Some s => s
  | None => "undefined"
  end.

(** [errorData.detail || errorMsg] *)
Definition or_else (o : option string) (d : string) : string :=
  match o with
  | Some s => if String.eqb s EmptyString then d else s
  | None => d
  end.

Definition syntaxError : JsError :=
  {| err_name := "SyntaxError"; err_message := "Unexpected token" |}.

Definition typeError : JsError :=
  {| err_name := "TypeError"; err_message := "Cannot read properties of null" |}.

(** The listener of the [load] event of the request. The second component
    is the exception that leaves the listener, if any: nothing around the
    listener catches it. *)
Definition onLoad (status : nat) (parsed : Parsed) (p : Page)
  : Page * option JsError :=
  if (200 <=? status) && (status <? 300) then
    match parsed with
    | ParseError => (p, Some syntaxError)
    | ParsedNull => (p, Some typeError)
    | ParsedObject filename _ =>
        (setIsUploading false
           (uploaded ("File uploaded successfully: " +:+ show filename) p), None)
    end
  else
    let errorMsg :=
      match parsed with
      | ParsedObject _ detail => or_else detail "Upload failed"
      | _ => "Upload failed"
      end in
    (setIsUploading false (setError errorMsg p), None).

(** The listeners of the [error] and [abort] events, and the cancel button. *)
Definition onError (p : Page) : Page :=
  setIsUploading false (setError "Network error occurred while uploading" p).

Definition onAbort (p : Page) : Page :=
  setIsUploading false (setError "Upload was aborted" p).

Definition cancelUpload (p : Page) : Page :=
  setError "Upload cancelled" (setIsUploading false p).

(** The page while a selected file is being uploaded. *)
Definition uploading : Page :=
  {| file := Some {| name := "a.mp3"; type := "audio/mpeg" |};
     isUploading := true; uploadProgress := 100; message := EmptyString;
     error := EmptyString; audioDescription := "demo"; audioCategory := "Jazz";
     audioLength := Some 42 |}.

End Upload.

(** ** Authenticated requests (utils/auth) *)

Module AuthFetch.
Import Auth.

(** The fetch options the helpers read and copy. [headers] is a plain
    object: its keys are compared as they are written. *)
Record Options := {
  method : option string;
  headers : option (gmap string string);
  body : option string
}.

(** [withAuth(options = {})] *)
Definition withAuth (options : Options) (st : State) : Options :=
  let token := getToken st in
  let headers := default ∅ (headers options) in
  let headers := match token with
                 | Some t => <["Authorization" := "Bearer " +:+ t]> headers
                 | None => headers
                 end in
  {| method := method options; headers := Some headers; body := body options |}.

(** [authFetch(url, options)]: the request is sent with the options of
    [withAuth]; the second component is what was passed to [fetch]. *)
Definition authFetch (url : string) (options : Options) (st : State)
  : State * (string * Options) :=
  (emit (NetRequest (default "GET" (method options)) url) st,
   (url, withAuth options st)).

End AuthFetch.

(** ** The layout with the navigation bar *)

Module Layout.
Import Auth.

Record Nav := {
  isAuthState : bool;
  username : string;
  mounted : bool;
  authChecked : bool
}.

Definition setIsAuthState (b : bool) (n : Nav) : Nav :=
  {| isAuthState := b; username := username n; mounted := mounted n;
     authChecked := authChecked n |}.
Definition setUsername (u : string) (n : Nav) : Nav :=
  {| isAuthState := isAuthState n; username := u; mounted := mounted n;
     authChecked := authChecked n |}.
Definition setMounted (b : bool) (n : Nav) : Nav :=
  {| isAuthState := isAuthState n; username := username n; mounted := b;
     authChecked := authChecked n |}.
Definition setAuthChecked (b : bool) (n : Nav) : Nav :=
  {| isAuthState := isAuthState n; username := username n; mounted := mounted n;
     authChecked := b |}.

(** [sessionStorage.getItem('username') || ''] *)
Definition storedUsername (st : State) : string :=
  default EmptyString (getItem "username" st).

(** updateAuthState, with the answer to the verification that
    checkAuthStatus may await. The last component tells whether a
    verification is still in flight. *)
Definition updateAuthState (latency : Z) (reply : Outcome (Response User))
    (n : Nav) (st : State) : Nav * State * bool :=
  let localAuthStatus :=
    bool_decide (getItem "isAuthenticated" st = Some "true") in
  let n := if localAuthStatus
           then setUsername (storedUsername st) (setIsAuthState true n)
           else n in
  let '(st, isAuth, verifying) := checkAuthStatus latency reply st in
  let n := if isAuth
           then setUsername (storedUsername st) (setIsAuthState true n)
           else setUsername EmptyString (setIsAuthState false n) in
  (setAuthChecked true n, st, verifying).

(** The listeners of the [login] and [logout] events. *)
Definition handleLoginEvent (n : Nav) (st : State) : Nav :=
  setUsername (storedUsername st) (setIsAuthState true n).

Definition handleLogoutEvent (n : Nav) : Nav :=
  setUsername EmptyString (setIsAuthState false n).

(** The mount effect, run while [authChecked] is as in [n]. *)
Definition mountEffect (latency : Z) (reply : Outcome (Response User))
    (n : Nav) (st : State) : Nav * State * bool :=
  let n := setMounted true n in
  if authChecked n then (n, st, false)
  else
    let n := if bool_decide (getItem "isAuthenticated" st = Some "true")
             then setUsername (storedUsername st) (setIsAuthState true n)
             else n in
    updateAuthState latency reply n st.

(** handleLogout: [logout()] dispatches the event, whose listener runs at
    once, then the handler sets the same two cells and navigates. *)
Definition handleLogout (n : Nav) (st : State) : Nav * State :=
  let st := logout st in
  let n := handleLogoutEvent n in
  let n := setUsername EmptyString (setIsAuthState false n) in
  (n, emit (RouterPush "/login") st).

End Layout.

(** ** The upload page: choosing a file *)

Module UploadFile.
Import Upload.

(** The page together with the object URLs of the browser. *)
Record World := {
  page : Page;
  live : gset Url;
  minted : nat;
  trace : list Effect
}.

Definition with_page (f : Page → Page) (w : World) : World :=
  {| page := f (page w); live := live w; minted := minted w; trace := trace w |}.

Definition setFile (f : option File) (p : Page) : Page :=
  {| file := f; isUploading := isUploading p;
     uploadProgress := uploadProgress p; message := message p; error := error p;
     audioDescription := audioDescription p; audioCategory := audioCategory p;
     audioLength := audioLength p |}.

Definition setAudioLength (l : option nat) (p : Page) : Page :=
  {| file := file p; isUploading := isUploading p;
     uploadProgress := uploadProgress p; message := message p; error := error p;
     audioDescription := audioDescription p; audioCategory := audioCategory p;
     audioLength := l |}.

Definition createObjectURL (w : World) : World * Url :=
  ({| page := page w; live := {[minted w]} ∪ live w; minted := S (minted w);
      trace := trace w ++ [CreateObjectURL (minted w)] |}, minted w).

Definition revokeObjectURL (u : Url) (w : World) : World :=
  {| page := page w; live := live w ∖ {[u]}; minted := minted w;
     trace := trace w ++ [RevokeObjectURL u] |}.

(** handleFileChange; [selectedFile] is [e.target.files[0]]. The second
    component is the object URL given to the audio element whose
    [loadedmetadata] or [error] event is awaited, if any. *)
Definition handleFileChange (selectedFile : option File) (w : World)
  : World * option Url :=
  match selectedFile with
  | Some f =>
      if negb (String.prefix "audio/" (type f)) then
        (with_page (setError "Please select an audio file") w, None)
      else
        let w := with_page (setFile (Some f)) w in
        let w := with_page (setError EmptyString) w in
        let '(w, objectUrl) := createObjectURL w in
        (w, Some objectUrl)
  | None => (with_page (setAudioLength None) w, None)
  end.

(** The [loadedmetadata] listener; [durationInSeconds] is the value of
    [Math.round(audioElement.duration)]. *)
Definition onLoadedMetadata (durationInSeconds : nat) (objectUrl : Url)
    (w : World) : World :=
  revokeObjectURL objectUrl
    (with_page (setAudioLength (Some durationInSeconds)) w).

(** The [error] listener of the audio element. *)
Definition onAudioError (objectUrl : Url) (w : World) : World :=
  revokeObjectURL objectUrl
    (with_page (setError "Could not read audio file length") w).

(** The page when it mounts. *)
Definition initial : World :=
  {| page := {| file := None; isUploading := false; uploadProgress := 0;
                message := EmptyString; error := EmptyString;
                audioDescription := EmptyString; audioCategory := EmptyString;
                audioLength := None |};
     live := ∅; minted := 0; trace := [] |}.

End UploadFile.

(** ** The user management page (admin/users) *)

Module Users.

(** A row of the table, as the server sends it. [email] and [fullname] may
    be missing or empty. *)
Record UserRow := {
  username : string;
  email : option string;
  fullname : option string;
  role : string
}.

Global Instance UserRow_eq_dec : EqDecision UserRow.
Proof. solve_decision. Defined.

Module Form.
Record t := {
  username : string;
  email : string;
  fullname : string;
  role : string;
  password : string
}.
End Form.


(** The decoded body of an answer to a submission: the object itself is
    stored as a row of the table, and its [detail] property is read when the
    status is not OK. *)
Record Answer := { row : UserRow; detail : option string }.

Record Page := {
  users : list UserRow;
  isLoading : bool;
  currentUser : option Auth.User;
  error : option string;
  selectedUser : option UserRow;
  isModalOpen : bool;
  modalMode : string;
  isSubmitting : bool;
  formData : Form.t
}.

Definition setUsers (us : list UserRow) (p : Page) : Page :=
  {| users := us; isLoading := isLoading p; currentUser := currentUser p;
     error := error p; selectedUser := selectedUser p;
     isModalOpen := isModalOpen p; modalMode := modalMode p;
     isSubmitting := isSubmitting p; formData := formData p |}.
Definition setIsLoading (b : bool) (p : Page) : Page :=
  {| users := users p; isLoading := b; currentUser := currentUser p;
     error := error p; selectedUser := selectedUser p;
     isModalOpen := isModalOpen p; modalMode := modalMode p;
     isSubmitting := isSubmitting p; formData := formData p |}.
Definition setCurrentUser (u : option Auth.User) (p : Page) : Page :=
  {| users := users p; isLoading := isLoading p; currentUser := u;
     error := error p; selectedUser := selectedUser p;
     isModalOpen := isModalOpen p; modalMode := modalMode p;
     isSubmitting := isSubmitting p; formData := formData p |}.
Definition setError (e : option string) (p : Page) : Page :=
  {| users := users p; isLoading := isLoading p; currentUser := currentUser p;
     error := e; selectedUser := selectedUser p;
     isModalOpen := isModalOpen p; modalMode := modalMode p;
     isSubmitting := isSubmitting p; formData := formData p |}.
Definition setSelectedUser (u : option UserRow) (p : Page) : Page :=
  {| users := users p; isLoading := isLoading p; currentUser := currentUser p;
     error := error p; selectedUser := u;
     isModalOpen := isModalOpen p; modalMode := modalMode p;
     isSubmitting := isSubmitting p; formData := formData p |}.
Definition setIsModalOpen (b : bool) (p : Page) : Page :=
  {| users := users p; isLoading := isLoading p; currentUser := currentUser p;
     error := error p; selectedUser := selectedUser p;
     isModalOpen := b; modalMode := modalMode p;
     isSubmitting := isSubmitting p; formData := formData p |}.
Definition setModalMode (m : string) (p : Page) : Page :=
  {| users := users p; isLoading := isLoading p; currentUser := currentUser p;
     error := error p; selectedUser := selectedUser p;
     isModalOpen := isModalOpen p; modalMode := m;
     isSubmitting := isSubmitting p; formData := formData p |}.
Definition setIsSubmitting (b : bool) (p : Page) : Page :=
  {| users := users p; isLoading := isLoading p; currentUser := currentUser p;
     error := error p; selectedUser := selectedUser p;
     isModalOpen := isModalOpen p; modalMode := modalMode p;
     isSubmitting := b; formData := formData p |}.
Definition setFormData (f : Form.t → Form.t) (p : Page) : Page :=
  {| users := users p; isLoading := isLoading p; currentUser := currentUser p;
     error := error p; selectedUser := selectedUser p;
     isModalOpen := isModalOpen p; modalMode := modalMode p;
     isSubmitting := isSubmitting p; formData := f (formData p) |}.

(** The default form data. *)
Definition emptyForm : Form.t :=
  {| Form.username := EmptyString; Form.email := EmptyString;
     Form.fullname := EmptyString; Form.role := "user";
     Form.password := EmptyString |}.

(** The page when it mounts. *)
Definition initial : Page :=
  {| users := []; isLoading := true; currentUser := None; error := None;
     selectedUser := None; isModalOpen := false; modalMode := "create";
     isSubmitting := false; formData := emptyForm |}.

(** [o || ''] *)
Definition or_empty (o : option string) : string := default EmptyString o.

(** [o || d] *)
Definition or_else (o : option string) (d : string) : string :=
  match o with
  | Some s => if String.eqb s EmptyString then d else s
  | None => d
  end.


Definition openModal (mode : string) (user : option UserRow) (p : Page) : Page :=
  let p := setModalMode mode p in
  let p :=
    match user with
    | Some user =>
        let p := setSelectedUser (Some user) p in
        setFormData (λ _,
          {| Form.username := username user;
             Form.email := or_empty (email user);
             Form.fullname := or_empty (fullname user);
             Form.role := role user;
             Form.password := EmptyString |}) p
    | None =>
        let p := setSelectedUser None p in
        setFormData (λ _, emptyForm) p
    end in
  setIsModalOpen true p.

Definition closeModal (p : Page) : Page :=
  setError None (setSelectedUser None (setIsModalOpen false p)).

(** *** fetchUsers *)



(** *** checkAdminStatus *)

(** [!user || user.role !== 'admin'] *)
Definition not_admin (user : option Auth.User) : bool :=
  match user with
  | None => true
  | Some u => negb (String.eqb (Auth.role u) "admin")
  end.


(** *** handleSubmit *)

(** The validation of the edit and create forms. *)
Definition missing_field (d : Form.t) : bool :=
  String.eqb (Form.username d) EmptyString
  || String.eqb (Form.email d) EmptyString
  || String.eqb (Form.password d) EmptyString
  || String.eqb (Form.fullname d) EmptyString
  || String.eqb (Form.role d) EmptyString.

(** Reading [selectedUser.username] when [selectedUser] is [null]. *)
Definition nullUsername : JsError :=
  {| err_name := "TypeError";
     err_message := "Cannot read properties of null (reading 'username')" |}.

(** The [catch] block; [modalMode] is the one the handler captured. *)
Definition handleSubmit_catch (view : Page) (err : JsError) (p : Page) : Page :=
  setError (Some ("Failed to " +:+ modalMode view +:+ " user: "
                  +:+ err_message err)) p.

(** The error thrown for an answer that is not OK:
    [errorData.detail || fallback] after [response.json().catch(() => ({}))]. *)
Definition refusal (fallback : string) (response : Response Answer) : JsError :=
  let errorData := match json response with
                   | Resolved a => detail a
                   | Rejected _ => None
                   end in
  mkError (or_else errorData (fallback +:+ statusText response)).

(** What the timer set for a user without admin rights does two seconds
    later. *)
Definition onTimeout (st : Auth.State) : Auth.State :=
  Auth.emit (RouterPush "/login") (Auth.logout st).

(** handleSubmit of the render [view]; [user] is what the awaited
    getCurrentUser(true) gave and [st] the session after it, [reply] the
    answer to the request of the submission, if one is sent. The last
    component tells whether the two-second timer was set. *)
Definition handleSubmit (view : Page) (user : option Auth.User)
    (reply : Outcome (Response Answer)) (p : Page) (st : Auth.State)
  : Page * Auth.State * bool :=
  if isSubmitting view then (p, st, false)
  else
    let p := setIsSubmitting true p in
    let '(p, st, timer) :=
      if not_admin user then
        (setError (Some "Your session has expired or you no longer have admin privileges") p,
         st, true)
      else if String.eqb (modalMode view) "delete" then
        match selectedUser view with
        | None => (handleSubmit_catch view nullUsername p, st, false)
        | Some selected =>
            let st := Auth.emit
                        (NetRequest "DELETE" ("/users/" +:+ username selected)) st in
            match reply with
            | Rejected err => (handleSubmit_catch view err p, st, false)
            | Resolved response =>
                if negb (ok response) then
                  (handleSubmit_catch view
                     (refusal "Failed to delete user: " response) p, st, false)
                else
                  let p := setUsers
                             (filter (λ user, username user ≠ username selected)
                                (users view)) p in
                  (closeModal p, st, false)
            end
        end
      else if String.eqb (modalMode view) "edit" then
        if missing_field (formData view) then
          (setError (Some "Fill in all fields!") p,
           Auth.emit (Alert "Fill in all fields!") st, false)
        else
          let st := Auth.emit (NetRequest "PUT" "/users/update") st in
          match reply with
          | Rejected err => (handleSubmit_catch view err p, st, false)
          | Resolved response =>
              if negb (ok response) then
                (handleSubmit_catch view
                   (refusal "Failed to update user: " response) p, st, false)
              else
                match json response with
                | Rejected err => (handleSubmit_catch view err p, st, false)
                | Resolved a =>
                    let updatedUser := row a in
                    match users view, selectedUser view with
                    | [], _ => (closeModal (setUsers [] p), st, false)
                    | _ :: _, None =>
                        (handleSubmit_catch view nullUsername p, st, false)
                    | us, Some selected =>
                        let p := setUsers
                                   (map (λ user,
                                      if decide (username user = username selected)
                                      then updatedUser else user) us) p in
                        (closeModal p, st, false)
                    end
                end
          end
      else
        if missing_field (formData view) then
          (setError (Some "fill in all fields!") p,
           Auth.emit (Alert "Please fill in all fields!") st, false)
        else
          let st := Auth.emit (NetRequest "POST" "/users/create") st in
          match reply with
          | Rejected err => (handleSubmit_catch view err p, st, false)
          | Resolved response =>
              if negb (ok response) then
                (handleSubmit_catch view
                   (refusal "Failed to create user: " response) p, st, false)
              else
                match json response with
                | Rejected err => (handleSubmit_catch view err p, st, false)
                | Resolved a =>
                    let newUser := row a in
                    (closeModal (setUsers (users view ++ [newUser]) p), st, false)
                end
          end
    in
    (setIsSubmitting false p, st, timer).

(** Sample rows. *)
Definition bob : UserRow :=
  {| username := "bob"; email := Some "bob@example.org";
     fullname := Some "Bob B"; role := "user" |}.
Definition carol : UserRow :=
  {| username := "carol"; email := None; fullname := None; role := "user" |}.

(** The page of an admin with two rows and the delete dialog open on the
    first. *)
Definition deleting_bob : Page :=
  openModal "delete" (Some bob)
    (setIsLoading false
       (setUsers [bob; carol] (setCurrentUser (Some Session.alice) initial))).

Definition accepted : Outcome (Response Answer) :=
  Resolved {| status := 200; statusText := "OK";
              body := BodyJson {| row := bob; detail := None |} |}.

End Users.

(** ** Vocabulary of the further properties *)

Module Terms.

(** The login goes through: both fields are filled in, the status is OK
    and the body decodes. *)
Definition login_succeeds (form : Login.Form)
    (reply : Outcome (Response Login.LoginBody)) : bool :=
  negb (String.eqb (Login.username form) EmptyString)
  && negb (String.eqb (Login.password form) EmptyString)
  && match reply with
     | Resolved response =>
         ok response && match json response with
                        | Resolved _ => true
                        | Rejected _ => false
                        end
     | Rejected _ => false
     end.

(** The chosen file is taken over by the upload page: there is one and its
    type starts with [audio/]. *)
Definition accepted (selectedFile : option Upload.File) : bool :=
  match selectedFile with
  | Some f => String.prefix "audio/" (Upload.type f)
  | None => false
  end.



End Terms.

(** * Properties *)

(** ** The audio library page *)

Module AudioFilesFacts.
Import AudioFiles.

(** The model on small inputs. *)
Example actualFileName_of_path : actualFileName "music/live/a.mp3" = "a.mp3".
Proof. reflexivity. Qed.

Example actualFileName_of_name : actualFileName "a.mp3" = "a.mp3".
Proof. reflexivity. Qed.

Example display_title_of_file : display_title "song_one.mp3" = "song one".
Proof. reflexivity. Qed.

Example display_title_keeps_inner_dots : display_title "take.2.final.wav" = "take.2.final".
Proof. reflexivity. Qed.

Example list_of_one_name :
  audioFiles (page (fetchAudioFiles
    (Resolved {| status := 200; statusText := "OK";
                 body := BodyJson (DataFiles [EntryString "song_one.mp3"]) |})
    initial))
  = [ {| id := 1; title := "song one"; description := Some EmptyString;
         artist := "Unknown Artist"; audio_category := Some EmptyString;
         duration := "--:--"; fileName := "song_one.mp3";
         filePath := Some EmptyString |} ].
Proof. reflexivity. Qed.

Lemma fetchAudioSource_start_pending view fileName w :
  fileName ∈ pendingFetches view →
  fetchAudioSource_start view fileName w
  = (fetchAudioSource_finally fileName w, Returned None).
Proof. intros Hin. unfold fetchAudioSource_start. by rewrite decide_True. Qed.

Lemma fetchAudioSource_start_free view fileName w :
  fileName ∉ pendingFetches view →
  fetchAudioSource_start view fileName w
  = (emit (NetRequest "GET" ("/stream/" +:+ actualFileName fileName))
       (setPendingFetches (λ prev, {[fileName]} ∪ prev) (setFetchingAudio true w)),
     Awaiting).
Proof. intros Hin. unfold fetchAudioSource_start. by rewrite decide_False. Qed.

(** C8. A call of fetchAudioSource for a file name that the rendered
    PendingFetchSet already holds returns null without any request, and its
    finally block removes the file name from the current PendingFetchSet:
    the marker of the fetch that is still outstanding is gone. *)
Theorem rejected_duplicate_clears_marker
    (view : Page) (fileName : string) (reply : Outcome (Response unit)) (w : World) :
  fileName ∈ pendingFetches view →
  let w' := (fetchAudioSource view fileName reply w).1 in
  (fetchAudioSource view fileName reply w).2 = None
  ∧ trace w' = trace w
  ∧ pendingFetches (page w') = pendingFetches (page w) ∖ {[fileName]}
  ∧ fileName ∉ pendingFetches (page w').
Proof.
  intros Hin. unfold fetchAudioSource.
  rewrite fetchAudioSource_start_pending by done. simpl.
  repeat split; set_solver.
Qed.

Lemma rejected_duplicate_clears_marker_witness :
  "a.mp3" ∈ pendingFetches (page one_outstanding)
  ∧ (fetchAudioSource (page one_outstanding) "a.mp3"
       (Rejected (mkError "unused")) one_outstanding).2 = None
  ∧ "a.mp3" ∉ pendingFetches
      (page (fetchAudioSource (page one_outstanding) "a.mp3"
               (Rejected (mkError "unused")) one_outstanding).1).
Proof.
  assert (Hin : "a.mp3" ∈ pendingFetches (page one_outstanding))
    by (vm_compute; set_solver).
  split; [exact Hin|].
  pose proof (rejected_duplicate_clears_marker (page one_outstanding) "a.mp3"
                (Rejected (mkError "unused")) one_outstanding Hin) as H.
  simpl in H. destruct H as (H1 & _ & _ & H4). split; [exact H1 | exact H4].
Defined.

(** C1 (what the code does instead). While a fetch of a file is outstanding,
    the first further call is rejected, but the call after it, made on the
    re-rendered state, is not: it passes the guard and sends a second
    request for the same file. *)
Theorem second_duplicate_sends_request (fileName : string) (w : World) :
  fileName ∈ pendingFetches (page w) →
  let w1 := (fetchAudioSource_start (page w) fileName w).1 in
  let w2 := (fetchAudioSource_start (page w1) fileName w1).1 in
  (fetchAudioSource_start (page w) fileName w).2 = Returned None
  ∧ (fetchAudioSource_start (page w1) fileName w1).2 = Awaiting
  ∧ trace w2 = trace w ++ [NetRequest "GET" ("/stream/" +:+ actualFileName fileName)].
Proof.
  intros Hin. simpl.
  rewrite (fetchAudioSource_start_pending (page w)) by done. simpl.
  rewrite fetchAudioSource_start_free by (simpl; set_solver).
  done.
Qed.

Lemma second_duplicate_sends_request_witness :
  "a.mp3" ∈ pendingFetches (page one_outstanding)
  ∧ trace (fetchAudioSource_start
             (page (fetchAudioSource_start (page one_outstanding) "a.mp3"
                      one_outstanding).1) "a.mp3"
             (fetchAudioSource_start (page one_outstanding) "a.mp3"
                one_outstanding).1).1
    = [NetRequest "GET" "/stream/a.mp3"; NetRequest "GET" "/stream/a.mp3"].
Proof.
  assert (Hin : "a.mp3" ∈ pendingFetches (page one_outstanding))
    by (vm_compute; set_solver).
  split; [exact Hin|].
  destruct (second_duplicate_sends_request "a.mp3" one_outstanding Hin)
    as (_ & _ & H).
  exact H.
Defined.

Lemma Inv_initial : Inv initial.
Proof.
  split; simpl.
  - intros u f [Hl _]. simpl in Hl. set_solver.
  - set_solver.
  - intros f u H. by rewrite lookup_empty in H.
  - intros f u H. by rewrite lookup_empty in H.
  - intros u q H. by rewrite lookup_empty in H.
  - intros u f H. by rewrite lookup_empty in H.
Qed.

(** Steps that touch neither the URLs nor the two maps. *)
Lemma Inv_frame w w' :
  live w' = live w → purpose w' = purpose w → minted w' = minted w →
  audioSources (page w') = audioSources (page w) →
  effectSources w' = effectSources w →
  Inv w → Inv w'.
Proof.
  intros Hl Hp Hm Hs He [Ho Hf Hst Hc Hpu Hd]. split.
  - intros u f [H1 H2]. rewrite Hs. apply Ho. split; congruence.
  - intros u. rewrite Hl, Hm. apply Hf.
  - intros f u. rewrite Hs, Hp. apply Hst.
  - intros f u. rewrite He, Hp. apply Hc.
  - intros u q. rewrite Hp, Hm. apply Hpu.
  - intros u f. rewrite Hp, Hl. apply Hd.
Qed.

Lemma Inv_revoke u f w :
  purpose w !! u = Some (ForStream f) → Inv w → Inv (revokeObjectURL u w).
Proof.
  intros Hu [Ho Hf Hst Hc Hpu Hd]. split; simpl; try done.
  - intros u' f' [H1 H2]; simpl in *. apply Ho. split; [set_solver|done].
  - intros u' H. apply Hf. set_solver.
  - intros u' f' H. specialize (Hd _ _ H).
    assert (u' ≠ u) by congruence. set_solver.
Qed.

Lemma Inv_revoke_delete u f w :
  audioSources (page w) !! f = Some u →
  Inv w → Inv (setAudioSources (λ prev, delete f prev) (revokeObjectURL u w)).
Proof.
  intros Hu [Ho Hf Hst Hc Hpu Hd]. split; simpl; try done.
  - intros u' f' [H1 H2]; simpl in *.
    assert (Hlive : u' ∈ live w) by set_solver.
    specialize (Ho u' f' (conj Hlive H2)).
    destruct (decide (f' = f)) as [->|Hne].
    + rewrite Hu in Ho. set_solver.
    + by rewrite lookup_delete_ne.
  - intros u' H. apply Hf. set_solver.
  - intros f' u' H. apply lookup_delete_Some in H as [_ H]. by apply Hst.
  - intros u' f' H. specialize (Hd _ _ H). apply Hst in Hu.
    assert (u' ≠ u) by congruence. set_solver.
Qed.

Lemma Inv_install f w :
  (∀ old, audioSources (page w) !! f = Some old → old ∉ live w) →
  Inv w →
  Inv (setAudioSources (λ prev, <[f:=minted w]> prev)
         (createObjectURL (ForStream f) w).1).
Proof.
  intros Hold [Ho Hf Hst Hc Hpu Hd]. split; simpl.
  - intros u f' [H1 H2]; simpl in *.
    destruct (decide (u = minted w)) as [->|Hne].
    + rewrite lookup_insert_eq in H2. injection H2 as <-.
      by rewrite lookup_insert_eq.
    + rewrite lookup_insert_ne in H2 by done.
      assert (Hlive : u ∈ live w) by set_solver.
      specialize (Ho u f' (conj Hlive H2)).
      destruct (decide (f = f')) as [<-|Hnf].
      * exfalso. by apply (Hold u).
      * by rewrite lookup_insert_ne.
  - intros u. rewrite elem_of_union, elem_of_singleton.
    intros [->|H]; [lia|]. specialize (Hf u H). lia.
  - intros f' u H. apply lookup_insert_Some in H as [[<- <-]|[Hne H]].
    + by rewrite lookup_insert_eq.
    + apply Hst in H. rewrite lookup_insert_ne; [done|].
      apply Hpu in H. lia.
  - intros f' u H. apply Hc in H. rewrite lookup_insert_ne; [done|].
    apply Hpu in H. lia.
  - intros u q H. apply lookup_insert_Some in H as [[<- _]|[_ H]]; [lia|].
    apply Hpu in H. lia.
  - intros u f' H. apply lookup_insert_Some in H as [[_ H]|[_ H]]; [done|].
    apply Hd in H. set_solver.
Qed.

Lemma Inv_create_download f w :
  Inv w → Inv (createObjectURL (ForDownload f) w).1.
Proof.
  intros [Ho Hf Hst Hc Hpu Hd]. split; simpl.
  - intros u f' [H1 H2]; simpl in *.
    destruct (decide (u = minted w)) as [->|Hne].
    + by rewrite lookup_insert_eq in H2.
    + rewrite lookup_insert_ne in H2 by done.
      apply Ho. split; [set_solver|done].
  - intros u. rewrite elem_of_union, elem_of_singleton.
    intros [->|H]; [lia|]. specialize (Hf u H). lia.
  - intros f' u H. apply Hst in H. rewrite lookup_insert_ne; [done|].
    apply Hpu in H. lia.
  - intros f' u H. apply Hc in H. rewrite lookup_insert_ne; [done|].
    apply Hpu in H. lia.
  - intros u q H. apply lookup_insert_Some in H as [[<- _]|[_ H]]; [lia|].
    apply Hpu in H. lia.
  - intros u f' H. apply lookup_insert_Some in H as [[<- _]|[_ H]]; [set_solver|].
    apply Hd in H. set_solver.
Qed.

Create HintDb inv.

Lemma Inv_emit e w : Inv w → Inv (emit e w).
Proof. by apply Inv_frame. Qed.
Lemma Inv_setAudioFiles g w : Inv w → Inv (setAudioFiles g w).
Proof. by apply Inv_frame. Qed.
Lemma Inv_setLoading b w : Inv w → Inv (setLoading b w).
Proof. by apply Inv_frame. Qed.
Lemma Inv_setError e w : Inv w → Inv (setError e w).
Proof. by apply Inv_frame. Qed.
Lemma Inv_setExpandedTrack t w : Inv w → Inv (setExpandedTrack t w).
Proof. by apply Inv_frame. Qed.
Lemma Inv_setFetchingAudio b w : Inv w → Inv (setFetchingAudio b w).
Proof. by apply Inv_frame. Qed.
Lemma Inv_setPendingFetches g w : Inv w → Inv (setPendingFetches g w).
Proof. by apply Inv_frame. Qed.

Lemma Inv_pausePlayer w : Inv w → Inv (pausePlayer w).
Proof.
  intros H. unfold pausePlayer. destruct (playerMounted w); [|done].
  by apply Inv_emit.
Qed.

Lemma Inv_finally f w : Inv w → Inv (fetchAudioSource_finally f w).
Proof. by apply Inv_frame. Qed.

Lemma Inv_catch err w : Inv w → Inv (fetchAudioSource_catch err w).
Proof.
  intros H. unfold fetchAudioSource_catch.
  destruct (String.eqb _ _); [done|]. by apply Inv_emit.
Qed.

#[local] Hint Resolve Inv_emit Inv_setAudioFiles Inv_setLoading Inv_setError
  Inv_setExpandedTrack Inv_setFetchingAudio Inv_setPendingFetches
  Inv_pausePlayer Inv_finally Inv_catch Inv_revoke_delete
  Inv_create_download : inv.

Lemma view_ok_current f w : Inv w → view_ok (page w) f w.
Proof. intros HI. split; [done|]. intros old. apply (inv_stored w HI). Qed.

Lemma Inv_fetchAudioSource_resume view f reply w :
  view_ok view f w →
  Inv w → Inv (fetchAudioSource_resume view f reply w).1.
Proof.
  intros [Hview Hpurp] HI. unfold fetchAudioSource_resume.
  destruct reply as [response|err]; simpl; [|auto with inv].
  destruct (ok response); simpl; [|auto with inv].
  destruct (audioSources view !! f) as [old|] eqn:Hold.
  - assert (HI' : Inv (revokeObjectURL old w)) by (eapply Inv_revoke; eauto).
    destruct (blob response); simpl; [|auto with inv].
    apply Inv_finally, (Inv_install f (revokeObjectURL old w)); [|done].
    simpl. intros old' Hcur. apply Hview in Hcur. set_solver.
  - destruct (blob response); simpl; [|auto with inv].
    apply Inv_finally, (Inv_install f w); [|done].
    intros old' Hcur. apply Hview in Hcur. congruence.
Qed.

Lemma Inv_fetchAudioSource view f reply w :
  view_ok view f w →
  Inv w → Inv (fetchAudioSource view f reply w).1.
Proof.
  intros Hview HI. unfold fetchAudioSource, fetchAudioSource_start.
  destruct (decide (f ∈ pendingFetches view)); simpl; [auto with inv|].
  apply Inv_fetchAudioSource_resume; [exact Hview|auto with inv].
Qed.

Lemma Inv_toggleTrack audioId reply w :
  Inv w → Inv (toggleTrack (page w) audioId reply w).
Proof.
  intros HI. unfold toggleTrack.
  destruct (decide (expandedTrack (page w) = Some audioId)); [auto with inv|].
  assert (HI' : Inv (setExpandedTrack (Some audioId)
            (if decide (expandedTrack (page w) = None) then w else pausePlayer w))).
  { destruct (decide _); auto with inv. }
  destruct (List.find _ _) as [audioFile|]; [|done].
  destruct (audioSources (page w) !! fileName audioFile) eqn:Hsrc; [done|].
  apply Inv_fetchAudioSource; [|done].
  split.
  - intros old. simpl.
    destruct (decide _); [|unfold pausePlayer; destruct (playerMounted w)];
      simpl; congruence.
  - intros old. congruence.
Qed.

Lemma Inv_handlePlayError targetError f reply w :
  Inv w → Inv (handlePlayError (page w) targetError f reply w).
Proof.
  intros HI. unfold handlePlayError.
  destruct (negb _ || targetError); [|done].
  destruct (audioSources (page w) !! f) as [old|] eqn:Hold.
  - destruct (decide (f ∈ pendingFetches (page w))); [auto with inv|].
    apply Inv_fetchAudioSource; [|auto with inv].
    split; simpl.
    + intros old'. by rewrite lookup_delete_eq.
    + intros old' Hv. apply (inv_stored w HI). congruence.
  - destruct (decide (f ∈ pendingFetches (page w))); [done|].
    apply Inv_fetchAudioSource; [|done]. by apply view_ok_current.
Qed.

Lemma Inv_handleDelete f reply w :
  Inv w → Inv (handleDelete (page w) f reply w).
Proof.
  intros HI. unfold handleDelete, handleDelete_catch.
  destruct reply as [response|err]; [|auto with inv].
  destruct (ok response); simpl; [|auto with inv].
  destruct (result_error _); [auto with inv|].
  apply Inv_setLoading, Inv_emit.
  assert (HI' : Inv
    match audioSources (page w) !! f with
    | Some url => setAudioSources (λ prev, delete f prev)
          (revokeObjectURL url
             (setAudioFiles (filter (λ file, fileName file ≠ f))
                (emit (NetRequest "DELETE" ("/delete/" +:+ actualFileName f))
                      (setLoading true w))))
    | None => setAudioFiles (filter (λ file, fileName file ≠ f))
                (emit (NetRequest "DELETE" ("/delete/" +:+ actualFileName f))
                      (setLoading true w))
    end).
  { destruct (audioSources (page w) !! f) as [url|] eqn:Hurl; auto 6 with inv. }
  match goal with |- Inv (if ?c then _ else _) => destruct c end; auto with inv.
Qed.

Lemma Inv_handleDownload f t reply w :
  Inv w → Inv (handleDownload f t reply w).
Proof.
  intros HI. unfold handleDownload, handleDownload_catch.
  destruct reply as [response|err]; [|auto with inv].
  destruct (ok response); simpl; [|auto with inv].
  destruct (blob response); simpl; [|auto with inv].
  apply Inv_emit.
  apply (Inv_create_download f
           (emit (NetRequest "GET" ("/download/" +:+ actualFileName f)) w)).
  auto with inv.
Qed.

Lemma Inv_fetchAudioFiles reply w : Inv w → Inv (fetchAudioFiles reply w).
Proof.
  intros HI. unfold fetchAudioFiles, fetchAudioFiles_catch.
  destruct reply as [response|err]; [|auto 6 with inv].
  destruct (ok response); simpl; [|auto 7 with inv].
  destruct (json response) as [[|files]|err]; auto 6 with inv.
Qed.

Lemma Inv_revoke_entries (l : list (string * Url)) w :
  (∀ f u, (f, u) ∈ l → purpose w !! u = Some (ForStream f)) →
  Inv w →
  Inv (foldl (λ w entry, revokeObjectURL entry.2 w) w l).
Proof.
  revert w. induction l as [|[f u] l IH]; intros w Hl HI; simpl; [done|].
  apply IH.
  - intros f' u' Hin. simpl. apply Hl. by right.
  - apply (Inv_revoke u f); [|done]. apply Hl. by left.
Qed.

Lemma Inv_effect_cleanup w : Inv w → Inv (effect_cleanup w).
Proof.
  intros HI. unfold effect_cleanup.
  apply Inv_revoke_entries; [|auto with inv].
  intros f u Hin. apply elem_of_map_to_list in Hin.
  unfold pausePlayer. destruct (playerMounted w); simpl;
    by apply (inv_captured w HI).
Qed.

Lemma revoke_entries_frame (l : list (string * Url)) w :
  page (foldl (λ w entry, revokeObjectURL entry.2 w) w l) = page w
  ∧ purpose (foldl (λ w entry, revokeObjectURL entry.2 w) w l) = purpose w
  ∧ minted (foldl (λ w entry, revokeObjectURL entry.2 w) w l) = minted w.
Proof.
  revert w. induction l as [|entry l IH]; intros w; simpl; [done|].
  destruct (IH (revokeObjectURL entry.2 w)) as (-> & -> & ->). done.
Qed.

Lemma effect_cleanup_frame w :
  page (effect_cleanup w) = page w
  ∧ purpose (effect_cleanup w) = purpose w
  ∧ minted (effect_cleanup w) = minted w.
Proof.
  unfold effect_cleanup.
  destruct (revoke_entries_frame (map_to_list (effectSources w)) (pausePlayer w))
    as (-> & -> & ->).
  unfold pausePlayer. by destruct (playerMounted w).
Qed.

Lemma Inv_rerender w : Inv w → Inv (rerender w).
Proof.
  intros HI. unfold rerender.
  destruct (Inv_effect_cleanup w HI) as [Ho Hf Hst Hc Hpu Hd].
  split; simpl; try done.
Qed.

Lemma Inv_run_op w op : Inv w → Inv (run_op w op).
Proof.
  intros HI. destruct op; simpl.
  - by apply Inv_fetchAudioFiles.
  - by apply Inv_fetchAudioSource; [apply view_ok_current|].
  - by apply Inv_toggleTrack.
  - by apply Inv_handlePlayError.
  - by apply Inv_handleDelete.
  - by apply Inv_handleDownload.
  - by apply Inv_rerender.
Qed.

Lemma Inv_run ops w : Inv w → Inv (run ops w).
Proof.
  revert w. induction ops as [|op ops IH]; intros w HI; simpl; [done|].
  apply IH. by apply Inv_run_op.
Qed.








(** The hypothesis of [handleDelete_outcome] holds in every state the page
    can reach: ids are list positions counted from one. *)
Lemma imap_formatFile_ids (files : list FileEntry) (k : nat) :
  id <$> imap (λ i, formatFile (k + i)) files = seq (k + 1) (length files).
Proof.
  revert k. induction files as [|x files IH]; intros k; [done|].
  simpl. f_equal.
  - rewrite Nat.add_0_r. by destruct x.
  - etrans; [|exact (IH (S k))]. f_equal. apply imap_ext. intros i y _.
    simpl. f_equal. lia.
Qed.




Create HintDb handlers.
#[local] Hint Unfold fetchAudioSource fetchAudioSource_start
  fetchAudioSource_resume fetchAudioSource_finally fetchAudioSource_catch
  pausePlayer toggleTrack handlePlayError handleDelete handleDelete_catch
  handleDownload handleDownload_catch fetchAudioFiles fetchAudioFiles_catch
  createObjectURL : handlers.

Ltac by_cases :=
  autounfold with handlers; repeat case_match; simplify_eq/=; try done.


Lemma effect_cleanup_page w : page (effect_cleanup w) = page w.
Proof. apply effect_cleanup_frame. Qed.




(** C9. Whenever the list request fails (a response that is not OK, an
    answer without a files array, or a thrown error), the message of the
    error is recorded and the audio list becomes the five hard-coded sample
    tracks; the redirect to the login route happens in the not-OK case and
    only there. *)
Theorem fetchAudioFiles_failure (reply : Outcome (Response ListData)) (w : World)
    (kind : ListFailure) (msg : string) :
  list_failure reply = Some (kind, msg) →
  let w' := fetchAudioFiles reply w in
  error (page w') = Some msg
  ∧ audioFiles (page w') = fallbackFiles
  ∧ title <$> audioFiles (page w')
    = ["Trombone Duet"; "Piano Sonata"; "Drum Solo"; "Ambient Sounds";
       "Electronic Beat"]
  ∧ length (audioFiles (page w')) = 5
  ∧ trace w' = trace w ++ NetRequest "GET" "/list-files" ::
                 match kind with
                 | NotOkResponse => [RouterPush "/login"]
                 | _ => []
                 end.
Proof.
  intros Hfail. unfold list_failure in Hfail. unfold fetchAudioFiles.
  destruct reply as [response|err]; [|by simplify_eq/=].
  destruct (negb (ok response)).
  { simplify_eq/=. repeat split. by rewrite <- app_assoc. }
  destruct (json response) as [[|files]|err]; by simplify_eq/=.
Qed.

Lemma fetchAudioFiles_failure_witness :
  let reply := Resolved {| status := 500; statusText := "Internal Server Error";
                           body := BodyNotJson "oops" |} in
  let w' := fetchAudioFiles reply initial in
  error (page w') = Some "Error fetching audio files: Internal Server Error"
  ∧ length (audioFiles (page w')) = 5
  ∧ trace w' = [NetRequest "GET" "/list-files"; RouterPush "/login"].
Proof.
  intros reply w'.
  destruct (fetchAudioFiles_failure reply initial NotOkResponse
              "Error fetching audio files: Internal Server Error" eq_refl)
    as (He & _ & _ & Hl & Ht).
  split; [exact He|]. split; [exact Hl|exact Ht].
Defined.

Lemma extends_refl w : extends w w.
Proof. by split. Qed.

Lemma extends_trans w1 w2 w3 : extends w1 w2 → extends w2 w3 → extends w1 w3.
Proof.
  intros [H1 H2] [H3 H4]. split; [lia|].
  intros u Hu. rewrite H4 by lia. by apply H2.
Qed.

Ltac extends_tac :=
  split; simpl; [lia | intros; rewrite ?lookup_insert_ne by lia; done].

Lemma extends_fetchAudioSource view f reply w :
  extends w (fetchAudioSource view f reply w).1.
Proof. by_cases; extends_tac. Qed.

Lemma extends_effect_cleanup w : extends w (effect_cleanup w).
Proof.
  destruct (effect_cleanup_frame w) as (_ & Hp & Hm).
  split; [lia|]. intros u _. by rewrite Hp.
Qed.

Lemma extends_run_op w op : extends w (run_op w op).
Proof.
  destruct op; simpl.
  - by_cases; extends_tac.
  - apply extends_fetchAudioSource.
  - by_cases; extends_tac.
  - by_cases; extends_tac.
  - by_cases; extends_tac.
  - by_cases; extends_tac.
  - unfold rerender. destruct (extends_effect_cleanup w) as [H1 H2]. by split.
Qed.

Lemma extends_run ops w : extends w (run ops w).
Proof.
  revert w. induction ops as [|op ops IH]; intros w; simpl.
  - apply extends_refl.
  - eapply extends_trans; [apply extends_run_op|apply IH].
Qed.

Lemma handleDownload_success f t reply w :
  streams reply = true →
  handleDownload f t reply w
  = emit (AnchorClick (minted w) t)
      (createObjectURL (ForDownload f)
         (emit (NetRequest "GET" ("/download/" +:+ actualFileName f)) w)).1.
Proof.
  intros Hgood. unfold handleDownload.
  destruct reply as [response|err]; [|done]. simpl in Hgood.
  apply andb_prop in Hgood as [-> Hblob]. simpl.
  by destruct (blob response).
Qed.

(** C10. A successful handleDownload, in any state the page can reach,
    leaves the whole component state as it was (so audioSources,
    pendingFetches, audioFiles and expandedTrack are unchanged); the URL it
    creates is live, is handed to the anchor, is not in the handle map, and
    whatever operations follow, stays live and out of the handle map: it is
    never revoked. *)
Theorem handleDownload_one_shot (before : list Op) (f t : string)
    (reply : Outcome (Response unit)) :
  streams reply = true →
  let w := run before initial in
  let w' := handleDownload f t reply w in
  let url := minted w in
  page w' = page w
  ∧ trace w' = trace w ++ [NetRequest "GET" ("/download/" +:+ actualFileName f);
                           CreateObjectURL url; AnchorClick url t]
  ∧ ∀ after, let w'' := run after w' in
      url ∈ live w'' ∧ ∀ g, audioSources (page w'') !! g ≠ Some url.
Proof.
  intros Hgood w w' url.
  assert (HI : Inv w) by apply Inv_run, Inv_initial.
  assert (HI' : Inv w') by by apply Inv_handleDownload.
  subst w'. rewrite handleDownload_success in * by done.
  split; [done|]. split; [simpl; by rewrite <- !app_assoc|].
  intros after w''.
  assert (HI'' : Inv w'') by by apply Inv_run.
  assert (Hp : purpose w'' !! url = Some (ForDownload f)).
  { destruct (extends_run after
       (emit (AnchorClick (minted w) t)
          (createObjectURL (ForDownload f)
             (emit (NetRequest "GET" ("/download/" +:+ actualFileName f)) w)).1))
      as [_ Hsame].
    subst w''. rewrite Hsame by (simpl; lia). simpl. by rewrite lookup_insert_eq. }
  split.
  - by eapply inv_download.
  - intros g Hg. apply (inv_stored _ HI'') in Hg.
    assert (E : Some (ForDownload f) = Some (ForStream g))
      by (etrans; [symmetry; exact Hp|exact Hg]).
    done.
Qed.

Lemma handleDownload_one_shot_witness :
  let w := run [OpFetch "a.mp3" good_stream] initial in
  let w' := handleDownload "a.mp3" "a" good_stream w in
  page w' = page w
  ∧ 1 ∈ live (run [OpDelete "a.mp3" delete_confirmed; OpRerender] w').
Proof.
  intros w w'.
  destruct (handleDownload_one_shot [OpFetch "a.mp3" good_stream] "a.mp3" "a"
              good_stream eq_refl) as (Hpage & _ & Hafter).
  split; [exact Hpage|].
  exact (proj1 (Hafter [OpDelete "a.mp3" delete_confirmed; OpRerender])).
Defined.

End AudioFilesFacts.

(** ** The session helpers, the login page and the home page *)

Module SessionFacts.
Import Auth Session.

(** C6 as stated fails: with no token in the store, checkAuthStatus leaves
    the one-shot marker [_authDispatchedEvent] as it was. *)
Lemma checkAuthStatus_keeps_dispatch_marker :
  getToken stale_session = None
  ∧ (checkAuthStatus_start stale_session).2 = AuthDone false
  ∧ getItem "_authDispatchedEvent" (checkAuthStatus_start stale_session).1
    = Some "true".
Proof. vm_compute. done. Qed.

(** C6, amended. With no token in the store, checkAuthStatus returns false
    at once without any request and removes the stored [isAuthenticated]
    flag and [username]; every other key of the store, the marker
    [_authDispatchedEvent] included, is left as it was. *)
Theorem checkAuthStatus_without_token (st : State) :
  getToken st = None →
  let st' := (checkAuthStatus_start st).1 in
  (checkAuthStatus_start st).2 = AuthDone false
  ∧ trace st' = trace st
  ∧ getItem "isAuthenticated" st' = None
  ∧ getItem "username" st' = None
  ∧ (∀ key, key ≠ "isAuthenticated" → key ≠ "username" →
            getItem key st' = getItem key st)
  ∧ (∀ latency reply, checkAuthStatus latency reply st = (st', false, false)).
Proof.
  intros Htok. unfold checkAuthStatus, checkAuthStatus_start. rewrite Htok.
  simpl. unfold getItem. simpl. split_and!; try done.
  - rewrite lookup_delete_ne by done. by rewrite lookup_delete_eq.
  - by rewrite lookup_delete_eq.
  - intros key H1 H2. by rewrite !lookup_delete_ne.
Qed.

Lemma checkAuthStatus_without_token_witness :
  getToken stale_session = None
  ∧ getItem "isAuthenticated" (checkAuthStatus_start stale_session).1 = None
  ∧ getItem "username" (checkAuthStatus_start stale_session).1 = None
  ∧ trace (checkAuthStatus_start stale_session).1 = [].
Proof.
  assert (Htok : getToken stale_session = None) by (vm_compute; reflexivity).
  split; [exact Htok|].
  destruct (checkAuthStatus_without_token stale_session Htok)
    as (_ & Ht & Ha & Hu & _).
  split; [exact Ha|]. split; [exact Hu|exact Ht].
Defined.



(** C3 as stated fails: after a valid login the [login] event is dispatched
    by the login handler, again by the home page, and a third time by the
    first verification; and a check made 57 seconds after that verification
    returned true sends a request, because the 60 seconds run from the
    moment the verification started. *)
Lemma login_event_dispatched_again :
  login_events (trace logged_in) = 1
  ∧ login_events (trace at_home) = 2
  ∧ (validateTokenAsync_finish me_alice
       (tick 5000 (checkAuthStatus_start at_home).1)).2 = true
  ∧ login_events (trace verified) = 3
  ∧ (checkAuthStatus_start (tick 57000 verified)).2 = AuthDoneVerifying true
  ∧ requests (trace (checkAuthStatus_start (tick 57000 verified)).1)
    = S (requests (trace verified)).
Proof. vm_compute. done. Qed.

Lemma login_events_snoc tr e :
  login_events (tr ++ [e])
  = login_events tr + (if decide (e = DispatchEvent "login") then 1 else 0).
Proof.
  unfold login_events. rewrite filter_app, length_app. f_equal.
  rewrite filter_cons, filter_nil. by destruct (decide _).
Qed.

(** The verification dispatches [login] only while the one-shot marker is
    not set, and sets the marker when it does. *)
Lemma validateTokenAsync_login_events reply st :
  let st' := (validateTokenAsync_finish reply st).1 in
  if bool_decide (getItem "_authDispatchedEvent" st = Some "true")
  then login_events (trace st') = login_events (trace st)
  else login_events (trace st') ≤ S (login_events (trace st))
       ∧ ((validateTokenAsync_finish reply st).2 = true →
          getItem "_authDispatchedEvent" st' = Some "true"
          ∧ login_events (trace st') = S (login_events (trace st))).
Proof.
  unfold validateTokenAsync_finish, validateTokenAsync_catch.
  destruct reply as [response|err]; simpl.
  2: { case_bool_decide; [done|]. split; [lia|done]. }
  destruct (ok response).
  - destruct (json response) as [userData|err]; simpl.
    2: { case_bool_decide; [done|]. split; [lia|done]. }
    destruct (String.eqb (username userData) EmptyString);
      unfold getItem; simpl; rewrite !lookup_insert_ne by done;
      case_bool_decide; simpl; try done;
      rewrite login_events_snoc, lookup_insert_eq; simpl;
      (split; [lia|]; intros _; split; [done|lia]).
  - destruct (blob response); simpl; (case_bool_decide; [done|]); split;
      first [lia|done].
Qed.

(** C3, amended. A login with valid credentials stores the token, the
    authenticated flag and the user name, leaves the marker
    [_authDispatchedEvent] as it was, and the login handler dispatches
    [login] exactly once; the home page dispatches [login] once more each
    time it mounts on an authenticated session; a verification dispatches
    [login] only while the marker [_authDispatchedEvent] is not set, and
    sets it; and a call of checkAuthStatus made while the token and the
    stored authenticated flag are present and less than 60 seconds after
    the start of the last verification returns true, changes nothing and
    sends no request. *)
Theorem login_then_cached_check :
  (∀ (form : Login.Form) (response : Response Login.LoginBody)
     (data : Login.LoginBody) (st : State),
     Login.username form ≠ EmptyString →
     Login.password form ≠ EmptyString →
     ok response = true →
     json response = Resolved data →
     let st' := (Login.handleLogin form (Resolved response) st).2 in
     getItem "token" st' = Some (Login.access_token data)
     ∧ getItem "isAuthenticated" st' = Some "true"
     ∧ getItem "username" st' = Some (Login.username form)
     ∧ getItem "_authDispatchedEvent" st' = getItem "_authDispatchedEvent" st
     ∧ trace st' = trace st ++ [NetRequest "POST" "/login";
                                DispatchEvent "login"; RouterPush "/"]
     ∧ login_events (trace st') = S (login_events (trace st)))
  ∧ (∀ (p : Home.Page) (st : State),
       isAuthenticated st = true →
       trace (Home.checkAuth p st).2 = trace st ++ [DispatchEvent "login"])
  ∧ (∀ (reply : Outcome (Response User)) (st : State),
       let st' := (validateTokenAsync_finish reply st).1 in
       if bool_decide (getItem "_authDispatchedEvent" st = Some "true")
       then login_events (trace st') = login_events (trace st)
       else login_events (trace st') ≤ S (login_events (trace st))
            ∧ ((validateTokenAsync_finish reply st).2 = true →
               getItem "_authDispatchedEvent" st' = Some "true"
               ∧ login_events (trace st') = S (login_events (trace st))))
  ∧ (∀ (st : State) (latency : Z) (reply : Outcome (Response User)),
       is_Some (getToken st) →
       getItem "isAuthenticated" st = Some "true" →
       (clock st - lastAuthCheck st < AUTH_CACHE_DURATION)%Z →
       checkAuthStatus latency reply st = (st, true, false)).
Proof.
  split_and!.
  - intros form response data st Hu Hp Hok Hjson. unfold Login.handleLogin.
    simpl. apply String.eqb_neq in Hu, Hp. rewrite Hu, Hp, Hok, Hjson. simpl.
    unfold getItem. simpl. split_and!.
    + rewrite !lookup_insert_ne by done. by rewrite lookup_insert_eq.
    + rewrite lookup_insert_ne by done. by rewrite lookup_insert_eq.
    + by rewrite lookup_insert_eq.
    + by rewrite !lookup_insert_ne.
    + by rewrite <- !app_assoc.
    + rewrite !login_events_snoc. simpl. lia.
  - intros p st Hauth. unfold Home.checkAuth. by rewrite Hauth.
  - apply validateTokenAsync_login_events.
  - intros st latency reply [token Htok] Hflag Hfresh.
    unfold checkAuthStatus, checkAuthStatus_start. rewrite Htok.
    rewrite bool_decide_eq_true_2 by done.
    by rewrite (proj2 (Z.ltb_lt _ _) Hfresh).
Qed.

Lemma login_then_cached_check_witness :
  getItem "token" logged_in = Some "tok"
  ∧ getItem "isAuthenticated" logged_in = Some "true"
  ∧ getItem "username" logged_in = Some "alice"
  ∧ login_events (trace logged_in) = 1
  ∧ checkAuthStatus 0 network_down (tick 50000 verified)
    = (tick 50000 verified, true, false).
Proof.
  destruct login_then_cached_check as (Hlogin & _ & _ & Hcheck).
  destruct (Hlogin login_form
              {| status := 200; statusText := "OK";
                 body := BodyJson {| Login.access_token := "tok";
                                     Login.detail := None |} |}
              {| Login.access_token := "tok"; Login.detail := None |}
              (initial 1000000))
    as (H1 & H2 & H3 & _ & _ & H5); [done|done|reflexivity|reflexivity|].
  split; [exact H1|]. split; [exact H2|]. split; [exact H3|].
  split; [exact H5|].
  apply Hcheck.
  - vm_compute. eauto.
  - vm_compute. reflexivity.
  - vm_compute. reflexivity.
Defined.

End SessionFacts.

(** ** The upload page *)

Module UploadFacts.
Import Upload.

(** C7 (what the code does). When the body of a completed upload is not
    JSON: on a status outside 200-299 the handler shows the generic message
    and stops the upload, and nothing is thrown; on a status in 200-299 the
    parse error leaves the listener uncaught, no message is set and the page
    still shows the upload as in progress. *)
Theorem onLoad_unparseable_body (status : nat) (p : Page) :
  let p' := (onLoad status ParseError p).1 in
  let uncaught := (onLoad status ParseError p).2 in
  if (200 <=? status) && (status <? 300) then
    uncaught = Some syntaxError ∧ p' = p
  else
    uncaught = None ∧ error p' = "Upload failed" ∧ isUploading p' = false
    ∧ message p' = message p.
Proof. unfold onLoad. by destruct ((200 <=? status) && (status <? 300)). Qed.

Lemma onLoad_unparseable_200 :
  onLoad 200 ParseError uploading = (uploading, Some syntaxError)
  ∧ isUploading uploading = true
  ∧ message uploading = EmptyString ∧ error uploading = EmptyString.
Proof. done. Qed.

End UploadFacts.

(** ** More about the audio library page *)

Module AudioFilesMore.
Import AudioFiles AudioFilesFacts.

#[local] Hint Unfold fetchAudioSource fetchAudioSource_start
  fetchAudioSource_resume fetchAudioSource_finally fetchAudioSource_catch
  pausePlayer toggleTrack handlePlayError handleDelete handleDelete_catch
  handleDownload handleDownload_catch fetchAudioFiles fetchAudioFiles_catch
  createObjectURL : handlers.

Ltac cases := autounfold with handlers; repeat case_match; simplify_eq/=.

(** Whatever the render, the answer and the exit path (guard, success,
    failure, abort), a completed fetchAudioSource leaves no marker for its
    file in the PendingFetchSet and resets the fetching flag. *)
Theorem fetchAudioSource_always_unmarks (view : Page) (f : string)
    (reply : Outcome (Response unit)) (w : World) :
  let w' := (fetchAudioSource view f reply w).1 in
  (f ∉ pendingFetches (page w')) ∧ fetchingAudio (page w') = false.
Proof. cases; split; set_solver. Qed.

(** The markers of other files are not touched by a fetch. *)
Theorem fetchAudioSource_other_markers (view : Page) (f g : string)
    (reply : Outcome (Response unit)) (w : World) :
  g ≠ f →
  let w' := (fetchAudioSource view f reply w).1 in
  g ∈ pendingFetches (page w') ↔ g ∈ pendingFetches (page w).
Proof. intros Hne. cases; set_solver. Qed.

Lemma fetchAudioSource_other_markers_witness :
  "b.mp3" ∈ pendingFetches
    (page (fetchAudioSource (page initial) "a.mp3" good_stream
             (fetchAudioSource_start (page initial) "b.mp3" initial).1).1).
Proof.
  apply (fetchAudioSource_other_markers (page initial) "a.mp3" "b.mp3"
           good_stream (fetchAudioSource_start (page initial) "b.mp3" initial).1).
  - done.
  - apply (bool_decide_unpack _). vm_compute. exact I.
Defined.

Lemma run_leaves_no_marker (ops : list Op) :
  pendingFetches (page (run ops initial)) = ∅
  ∧ fetchingAudio (page (run ops initial)) = false.
Proof.
  assert (H : ∀ w, pendingFetches (page w) = ∅ ∧ fetchingAudio (page w) = false →
                   pendingFetches (page (run ops w)) = ∅
                   ∧ fetchingAudio (page (run ops w)) = false).
  { induction ops as [|op ops IH]; intros w Hw; simpl; [done|].
    apply IH. destruct Hw as [Hp Hf].
    assert (Hfetch : ∀ f reply w0,
      page w0 = page w ∨ pendingFetches (page w0) = ∅ →
      pendingFetches (page w0) = ∅ →
      pendingFetches (page (fetchAudioSource (page w) f reply w0).1) = ∅
      ∧ fetchingAudio (page (fetchAudioSource (page w) f reply w0).1) = false).
    { intros f reply w0 _ Hw0. unfold fetchAudioSource, fetchAudioSource_start.
      rewrite decide_False by (rewrite Hp; set_solver).
      unfold fetchAudioSource_resume, fetchAudioSource_finally,
        fetchAudioSource_catch, createObjectURL.
      repeat case_match; simplify_eq/=; rewrite Hw0; split; set_solver. }
    destruct op; simpl.
    - unfold fetchAudioFiles, fetchAudioFiles_catch. by repeat case_match.
    - apply Hfetch; auto.
    - unfold toggleTrack, pausePlayer.
      repeat case_match; simpl; try done; apply Hfetch; simpl; auto.
    - unfold handlePlayError, pausePlayer.
      repeat case_match; simpl; try done; apply Hfetch; simpl; auto.
    - unfold handleDelete, handleDelete_catch. by repeat case_match.
    - unfold handleDownload, handleDownload_catch, createObjectURL.
      by repeat case_match.
    - unfold rerender. simpl. by rewrite effect_cleanup_page. }
  by apply H.
Qed.

(** A fetch that does not end in a usable answer (guard, rejected request,
    status outside 200-299, unreadable body) returns null, creates no
    object URL and leaves the handle map, the list and the expanded track
    as they were. *)
Theorem failed_fetch_installs_nothing (view : Page) (f : string)
    (reply : Outcome (Response unit)) (w : World) :
  streams reply = false →
  let w' := (fetchAudioSource view f reply w).1 in
  (fetchAudioSource view f reply w).2 = None
  ∧ audioSources (page w') = audioSources (page w)
  ∧ minted w' = minted w
  ∧ audioFiles (page w') = audioFiles (page w)
  ∧ expandedTrack (page w') = expandedTrack (page w).
Proof.
  intros Hbad. unfold fetchAudioSource, fetchAudioSource_start.
  destruct (decide (f ∈ pendingFetches view)); [done|].
  unfold fetchAudioSource_resume, fetchAudioSource_catch.
  destruct reply as [response|err]; simpl in *.
  - destruct (ok response); simpl in *.
    + destruct (blob response); [done|].
      by destruct (audioSources view !! f), (String.eqb _ _).
    + done.
  - by destruct (String.eqb _ _).
Qed.

Lemma failed_fetch_installs_nothing_witness :
  let reply := Resolved {| status := 404; statusText := "Not Found";
                           body := BodyNotJson "missing" |} in
  (fetchAudioSource (page initial) "a.mp3" reply initial).2 = None
  ∧ audioSources (page (fetchAudioSource (page initial) "a.mp3" reply initial).1)
    = ∅.
Proof.
  intros reply.
  destruct (failed_fetch_installs_nothing (page initial) "a.mp3" reply initial
              eq_refl) as (H1 & H2 & _).
  split; [exact H1|exact H2].
Defined.

(** When the request itself is rejected: an abort (the 30 second timeout)
    is silent, any other rejection raises exactly one alert carrying the
    message of the error. Either way one request was sent and nothing
    else happened. *)
Theorem rejected_fetch_alerts_unless_abort (view : Page) (f : string)
    (err : JsError) (w : World) :
  f ∉ pendingFetches view →
  trace (fetchAudioSource view f (Rejected err) w).1
  = trace w ++ NetRequest "GET" ("/stream/" +:+ actualFileName f) ::
      (if String.eqb (err_name err) "AbortError" then []
       else [Alert ("Failed to load audio: " +:+ err_message err)]).
Proof.
  intros Hfree. unfold fetchAudioSource.
  rewrite fetchAudioSource_start_free by done.
  unfold fetchAudioSource_resume, fetchAudioSource_catch.
  destruct (String.eqb _ _); simpl; [done|]. by rewrite <- app_assoc.
Qed.

Lemma rejected_fetch_alerts_unless_abort_witness :
  trace (fetchAudioSource (page initial) "a.mp3"
           (Rejected {| err_name := "AbortError";
                        err_message := "The operation was aborted." |})
           initial).1
  = [NetRequest "GET" "/stream/a.mp3"].
Proof.
  apply (rejected_fetch_alerts_unless_abort (page initial) "a.mp3"
           {| err_name := "AbortError";
              err_message := "The operation was aborted." |} initial).
  apply (bool_decide_unpack _). vm_compute. exact I.
Defined.

(** The previous handle is revoked as soon as the status is OK, before the
    body is read: when the body then fails, the handle map still holds the
    old URL although it is no longer live. *)
Theorem unreadable_body_leaves_dead_handle (view : Page) (f : string)
    (response : Response unit) (e : JsError) (old : Url) (w : World) :
  f ∉ pendingFetches view →
  audioSources view !! f = Some old →
  ok response = true →
  blob response = Rejected e →
  let w' := (fetchAudioSource view f (Resolved response) w).1 in
  audioSources (page w') = audioSources (page w)
  ∧ (old ∉ live w')
  ∧ RevokeObjectURL old ∈ trace w'.
Proof.
  intros Hfree Hold Hok Hblob. unfold fetchAudioSource.
  rewrite fetchAudioSource_start_free by done.
  unfold fetchAudioSource_resume. rewrite Hok, Hold, Hblob. simpl.
  unfold fetchAudioSource_catch.
  destruct (String.eqb _ _); simpl; split_and!; try done; set_solver.
Qed.

Lemma unreadable_body_leaves_dead_handle_witness :
  let w := run [OpFetch "a.mp3" good_stream] initial in
  let broken := {| status := 200; statusText := "OK";
                   body := BodyFails (mkError "connection reset") |} in
  let w' := (fetchAudioSource (page w) "a.mp3" (Resolved broken) w).1 in
  audioSources (page w') !! "a.mp3" = Some 0 ∧ 0 ∉ live w'.
Proof.
  intros w broken w'.
  destruct (unreadable_body_leaves_dead_handle (page w) "a.mp3" broken
              (mkError "connection reset") 0 w) as (Hs & Hl & _).
  - apply (bool_decide_unpack _). vm_compute. exact I.
  - vm_compute. reflexivity.
  - reflexivity.
  - reflexivity.
  - split; [|exact Hl]. subst w'. rewrite Hs. vm_compute. reflexivity.
Defined.

(** *** toggleTrack *)

(** Toggling the expanded track collapses it: no request is sent and
    neither the handle map nor the object URLs change. *)
Lemma toggle_expanded_collapses (view : Page) (audioId : nat)
    (reply : Outcome (Response unit)) (w : World) :
  expandedTrack view = Some audioId →
  let w' := toggleTrack view audioId reply w in
  expandedTrack (page w') = None
  ∧ audioSources (page w') = audioSources (page w)
  ∧ live w' = live w
  ∧ trace w' = trace w ++ (if playerMounted w then [PauseAudio] else []).
Proof.
  intros Hexp. unfold toggleTrack. rewrite decide_True by done.
  unfold pausePlayer. simpl. destruct (playerMounted w); simpl; [done|].
  by rewrite app_nil_r.
Qed.

(** Expanding a track and toggling it again, each time on the latest
    render, ends collapsed, whatever the network answered in between; the
    second toggle sends no request. *)
Theorem toggle_twice_collapses (audioId : nat)
    (reply1 reply2 : Outcome (Response unit)) (w : World) :
  expandedTrack (page w) ≠ Some audioId →
  let w1 := toggleTrack (page w) audioId reply1 w in
  let w2 := toggleTrack (page w1) audioId reply2 w1 in
  expandedTrack (page w1) = Some audioId
  ∧ expandedTrack (page w2) = None
  ∧ trace w2 = trace w1 ++ (if playerMounted w then [PauseAudio] else []).
Proof.
  intros Hne.
  assert (H1 : expandedTrack (page (toggleTrack (page w) audioId reply1 w))
               = Some audioId
             ∧ playerMounted (toggleTrack (page w) audioId reply1 w)
               = playerMounted w).
  { unfold toggleTrack. rewrite decide_False by done. cases; done. }
  destruct H1 as [H1 Hm]. simpl.
  destruct (toggle_expanded_collapses
              (page (toggleTrack (page w) audioId reply1 w)) audioId reply2
              (toggleTrack (page w) audioId reply1 w) H1) as (H2 & _ & _ & H3).
  rewrite Hm in H3. done.
Qed.


Lemma toggle_twice_collapses_witness :
  let w := run [OpList listed_two] initial in
  let w1 := toggleTrack (page w) 2 good_stream w in
  let w2 := toggleTrack (page w1) 2 good_stream w1 in
  expandedTrack (page w1) = Some 2 ∧ expandedTrack (page w2) = None.
Proof.
  intros w w1 w2.
  destruct (toggle_twice_collapses 2 good_stream good_stream w) as (H1 & H2 & _).
  - vm_compute. discriminate.
  - split; [exact H1|exact H2].
Defined.

Lemma requests_app tr1 tr2 :
  Auth.requests (tr1 ++ tr2) = Auth.requests tr1 + Auth.requests tr2.
Proof. unfold Auth.requests. by rewrite List.filter_app, length_app. Qed.

Lemma requests_snoc tr e :
  Auth.requests (tr ++ [e])
  = Auth.requests tr + (if Auth.is_request e then 1 else 0).
Proof. rewrite requests_app. unfold Auth.requests. simpl. by destruct (Auth.is_request e). Qed.





(** *** handlePlayError *)

(** A playback error on a file that has a handle, with no error reported by
    the media element, changes nothing at all. *)
Lemma playError_without_cause_is_idle view f url reply w :
  audioSources view !! f = Some url →
  handlePlayError view false f reply w = w.
Proof. intros Hsrc. unfold handlePlayError. by rewrite Hsrc. Qed.

(** While a fetch of the file is pending, a playback error never sends a
    request; it still revokes and drops the handle its render saw. *)
Theorem playError_never_retries_while_pending (view : Page) (targetError : bool)
    (f : string) (reply : Outcome (Response unit)) (w : World) :
  f ∈ pendingFetches view →
  let w' := handlePlayError view targetError f reply w in
  Auth.requests (trace w') = Auth.requests (trace w)
  ∧ minted w' = minted w
  ∧ pendingFetches (page w') = pendingFetches (page w)
  ∧ (∀ url, audioSources view !! f = Some url → targetError = true →
            audioSources (page w') !! f = None ∧ url ∉ live w').
Proof.
  intros Hpend. unfold handlePlayError.
  destruct (audioSources view !! f) as [url|] eqn:Hsrc; simpl.
  - destruct targetError; simpl.
    + rewrite decide_True by done. simpl. rewrite requests_snoc. simpl.
      split_and!; try done; try lia.
      intros url' [= <-] _. rewrite lookup_delete_eq. split; [done|set_solver].
    + split_and!; first [done | by intros url' _ [=]].
  - rewrite decide_True by done. split_and!; first [done | by intros url' [=]].
Qed.

Lemma playError_never_retries_while_pending_witness :
  Auth.requests (trace (handlePlayError (page one_outstanding) true "a.mp3"
                          good_stream one_outstanding))
  = Auth.requests (trace one_outstanding).
Proof.
  destruct (playError_never_retries_while_pending (page one_outstanding) true
              "a.mp3" good_stream one_outstanding) as (H & _).
  - apply (bool_decide_unpack _). vm_compute. exact I.
  - exact H.
Defined.

(** In every state the page reaches, a playback error with a reported media
    error on a file that has a handle ends, when the retry is answered well,
    with a fresh live handle for the file and the old one revoked; when the
    retry fails, with no handle for the file at all. *)
Theorem playError_retry_outcome (ops : list Op) (f : string) (old : Url)
    (reply : Outcome (Response unit)) :
  let w := run ops initial in
  audioSources (page w) !! f = Some old →
  let w' := handlePlayError (page w) true f reply w in
  (old ∉ live w')
  ∧ if streams reply
    then audioSources (page w') !! f = Some (minted w) ∧ minted w ∈ live w'
    else audioSources (page w') !! f = None.
Proof.
  intros w Hold w'.
  assert (HI : Inv w) by apply Inv_run, Inv_initial.
  assert (Hlt : old < minted w).
  { eapply inv_purpose; [done|]. by eapply inv_stored. }
  destruct (run_leaves_no_marker ops) as [Hp _]. fold w in Hp.
  subst w'. unfold handlePlayError. rewrite Hold. simpl.
  rewrite decide_False by (rewrite Hp; set_solver).
  unfold fetchAudioSource.
  rewrite fetchAudioSource_start_free by (rewrite Hp; set_solver).
  unfold fetchAudioSource_resume, fetchAudioSource_catch, streams.
  destruct reply as [response|err]; simpl.
  - destruct (ok response); simpl.
    + rewrite Hold. destruct (blob response); simpl.
      * split_and!; [|by rewrite lookup_insert_eq|set_solver].
        rewrite elem_of_union, elem_of_singleton. intros [->|?]; [lia|set_solver].
      * destruct (String.eqb _ _); simpl;
          (split; [set_solver|by rewrite lookup_delete_eq]).
    + split; [set_solver|by rewrite lookup_delete_eq].
  - destruct (String.eqb _ _); simpl;
      (split; [set_solver|by rewrite lookup_delete_eq]).
Qed.

Lemma playError_retry_outcome_witness :
  let w := run [OpFetch "a.mp3" good_stream] initial in
  let w' := handlePlayError (page w) true "a.mp3" good_stream w in
  (0 ∉ live w') ∧ audioSources (page w') !! "a.mp3" = Some 1.
Proof.
  intros w w'.
  destruct (playError_retry_outcome [OpFetch "a.mp3" good_stream] "a.mp3" 0
              good_stream) as (H1 & H2 & _).
  - vm_compute. reflexivity.
  - split; [exact H1|exact H2].
Defined.

(** *** The cleanup effect *)

Lemma revoke_entries_live (l : list (string * Url)) w :
  live (foldl (λ w entry, revokeObjectURL entry.2 w) w l) ⊆ live w
  ∧ ∀ f u, (f, u) ∈ l →
           u ∉ live (foldl (λ w entry, revokeObjectURL entry.2 w) w l).
Proof.
  revert w. induction l as [|[f u] l IH]; intros w; simpl.
  - split; [done|]. intros f u Hin. by apply elem_of_nil in Hin.
  - destruct (IH (revokeObjectURL u w)) as [Hsub Hgone]. simpl in Hsub.
    split; [set_solver|].
    intros f' u' Hin. apply elem_of_cons in Hin as [[= -> ->]|Hin].
    + intros Hl. apply Hsub in Hl. set_solver.
    + by eapply Hgone.
Qed.

Lemma rerender_effect (w : World) :
  audioSources (page (rerender w)) = audioSources (page w)
  ∧ effectSources (rerender w) = audioSources (page w)
  ∧ live (rerender w) ⊆ live w
  ∧ ∀ f u, effectSources w !! f = Some u → u ∉ live (rerender w).
Proof.
  unfold rerender. simpl. rewrite effect_cleanup_page.
  split_and!; try done; unfold effect_cleanup.
  - destruct (revoke_entries_live (map_to_list (effectSources w)) (pausePlayer w))
      as [Hsub _].
    unfold pausePlayer in Hsub at 2. by destruct (playerMounted w).
  - intros f u Hcap.
    destruct (revoke_entries_live (map_to_list (effectSources w)) (pausePlayer w))
      as [_ Hgone].
    apply (Hgone f u). by apply elem_of_map_to_list.
Qed.

(** A render after which the cleanup effect runs again revokes every URL
    the effect had captured, also those of files whose entry in the handle
    map is unchanged; the handle map itself is not touched, so such a
    handle stays stored although it is no longer live. *)
Theorem rerender_revokes_captured (w : World) (f : string) (u : Url) :
  effectSources w !! f = Some u →
  audioSources (page w) !! f = Some u →
  let w' := rerender w in
  audioSources (page w') !! f = Some u
  ∧ (u ∉ live w')
  ∧ effectSources w' = audioSources (page w)
  ∧ live w' ⊆ live w.
Proof.
  intros Hcap Hsrc w'.
  destruct (rerender_effect w) as (Ha & He & Hsub & Hgone).
  subst w'. rewrite Ha. split_and!; [done| |done|done].
  by apply (Hgone f).
Qed.

Lemma rerender_revokes_captured_witness :
  let w := run [OpFetch "a.mp3" good_stream; OpRerender;
                OpFetch "b.mp3" good_stream; OpRerender] initial in
  audioSources (page w) !! "a.mp3" = Some 0
  ∧ (0 ∉ live w) ∧ 1 ∈ live w.
Proof.
  intros w.
  pose (w0 := run [OpFetch "a.mp3" good_stream; OpRerender;
                   OpFetch "b.mp3" good_stream] initial).
  destruct (rerender_revokes_captured w0 "a.mp3" 0) as (Hs & Hd & _).
  - vm_compute. reflexivity.
  - vm_compute. reflexivity.
  - split; [exact Hs|]. split; [exact Hd|].
    apply (bool_decide_unpack _). vm_compute. exact I.
Defined.

(** Teardown. When the component unmounts after its last render has been
    committed, the cleanup leaves no live streaming URL behind, whatever
    sequence of operations came before. *)
Theorem unmount_revokes_every_handle (ops : list Op) :
  let w := effect_cleanup (rerender (run ops initial)) in
  ∀ f u, ¬ live_handle w f u.
Proof.
  intros w f u [Hlive Hpurp].
  set (w0 := rerender (run ops initial)) in *.
  assert (HI : Inv w0) by apply Inv_rerender, Inv_run, Inv_initial.
  destruct (effect_cleanup_frame w0) as (_ & Hp & _).
  subst w. rewrite Hp in Hpurp.
  unfold effect_cleanup in Hlive.
  destruct (revoke_entries_live (map_to_list (effectSources w0)) (pausePlayer w0))
    as [Hsub Hgone].
  assert (Hl0 : u ∈ live w0).
  { apply Hsub in Hlive. unfold pausePlayer in Hlive.
    by destruct (playerMounted w0). }
  pose proof (inv_owned w0 HI u f (conj Hl0 Hpurp)) as Hstored.
  apply (Hgone f u); [|done].
  apply elem_of_map_to_list. subst w0.
  destruct (rerender_effect (run ops initial)) as (Ha & He & _).
  rewrite He. by rewrite Ha in Hstored.
Qed.

(** *** handleDownload *)

(** A download that does not end in a usable answer changes nothing in the
    component, creates no object URL, clicks no anchor, and raises exactly
    one alert. *)
Theorem failed_download_only_alerts (f t : string)
    (reply : Outcome (Response unit)) (w : World) :
  streams reply = false →
  let w' := handleDownload f t reply w in
  page w' = page w ∧ live w' = live w ∧ minted w' = minted w
  ∧ ∃ msg, trace w' = trace w ++
             [NetRequest "GET" ("/download/" +:+ actualFileName f);
              Alert ("Failed to download audio: " +:+ msg)].
Proof.
  intros Hbad. unfold handleDownload, handleDownload_catch.
  destruct reply as [response|err]; simpl in *.
  - destruct (ok response); simpl in *.
    + destruct (blob response); [done|]. simpl. split_and!; try done.
      eexists. by rewrite <- app_assoc.
    + split_and!; try done. eexists. by rewrite <- app_assoc.
  - split_and!; try done. eexists. by rewrite <- app_assoc.
Qed.

Lemma failed_download_only_alerts_witness :
  let reply := Resolved {| status := 403; statusText := "Forbidden";
                           body := BodyNotJson "no" |} in
  page (handleDownload "a.mp3" "a" reply initial) = page initial
  ∧ live (handleDownload "a.mp3" "a" reply initial) = ∅.
Proof.
  intros reply.
  destruct (failed_download_only_alerts "a.mp3" "a" reply initial eq_refl)
    as (H1 & H2 & _).
  split; [exact H1|exact H2].
Defined.

(** *** fetchAudioFiles *)

(** A successful list fetch: the new list has one descriptor per entry of
    the server's list, in the same order, with ids counted from one; an
    entry that is a plain name keeps it as file name and gets the derived
    title and the defaults. A previously recorded error is not cleared. *)
Theorem listed_files_follow_the_answer (response : Response ListData)
    (files : list FileEntry) (w : World) :
  ok response = true →
  json response = Resolved (DataFiles files) →
  let w' := fetchAudioFiles (Resolved response) w in
  length (audioFiles (page w')) = length files
  ∧ id <$> audioFiles (page w') = seq 1 (length files)
  ∧ (∀ i name, files !! i = Some (EntryString name) →
       audioFiles (page w') !! i
       = Some {| id := i + 1; title := display_title name;
                 description := Some EmptyString; artist := "Unknown Artist";
                 audio_category := Some EmptyString; duration := "--:--";
                 fileName := name; filePath := Some EmptyString |})
  ∧ error (page w') = error (page w)
  ∧ loading (page w') = false
  ∧ trace w' = trace w ++ [NetRequest "GET" "/list-files"].
Proof.
  intros Hok Hjson. unfold fetchAudioFiles. rewrite Hok, Hjson. simpl.
  split_and!; try done.
  - by rewrite length_imap.
  - apply (imap_formatFile_ids files 0).
  - intros i name Hi. rewrite list_lookup_imap, Hi. done.
Qed.

Lemma listed_files_follow_the_answer_witness :
  let response := {| status := 200; statusText := "OK";
                     body := BodyJson (DataFiles [EntryString "a.mp3";
                                                  EntryString "b.mp3"]) |} in
  id <$> audioFiles (page (fetchAudioFiles (Resolved response) initial)) = [1; 2].
Proof.
  intros response.
  destruct (listed_files_follow_the_answer response
              [EntryString "a.mp3"; EntryString "b.mp3"] initial eq_refl eq_refl)
    as (_ & H & _).
  exact H.
Defined.

(** Every descriptor built from the server's list has a non-empty artist
    and duration; a plain name is kept as the file name as it is, and an
    entry of any other kind gets a non-empty file name, whatever fields it
    carries. *)
Theorem formatted_descriptor_defaults (index : nat) (file : FileEntry) :
  artist (formatFile index file) ≠ EmptyString
  ∧ duration (formatFile index file) ≠ EmptyString
  ∧ match file with
    | EntryString name => fileName (formatFile index file) = name
    | _ => fileName (formatFile index file) ≠ EmptyString
    end.
Proof.
  assert (Hor : ∀ o d, d ≠ EmptyString → or_else o d ≠ EmptyString).
  { intros [s0|] d Hd; simpl; [|done].
    destruct (String.eqb s0 EmptyString) eqn:E; [done|].
    by apply String.eqb_neq in E. }
  destruct file as [name|r|]; simpl; split_and!; try done; by apply Hor.
Qed.

(** *** File names and titles *)

Lemma split_slash_segments (s : string) :
  split_slash s ≠ []
  ∧ Forall (λ seg, includes_slash seg = false) (split_slash s)
  ∧ ∃ pre, s = pre +:+ List.last (split_slash s) EmptyString
           ∧ (length (split_slash s) = 1 → pre = EmptyString).
Proof.
  induction s as [|c s (Hne & Hall & pre & Hs & Hone)]; simpl.
  - split_and!; [done|by repeat constructor|]. by exists EmptyString.
  - destruct (Ascii.eqb c "/") eqn:Hc.
    + split_and!; [done|by constructor|].
      exists (String c pre). split; [|simpl; destruct (split_slash s); [done|simpl; lia]].
      simpl. f_equal. rewrite Hs at 1. f_equal.
      by destruct (split_slash s).
    + destruct (split_slash s) as [|seg rest] eqn:Hsplit; [done|].
      apply Forall_cons in Hall as [Hseg Hrest].
      split_and!; [done|constructor; [simpl; by rewrite Hc|done]|].
      destruct rest as [|seg' rest].
      * exists EmptyString. split; [|done]. simpl in *.
        rewrite (Hone eq_refl) in Hs. simpl in Hs. by rewrite Hs.
      * exists (String c pre). split; [|simpl; lia].
        cbn in Hs |- *. by rewrite Hs at 1.
Qed.

(** The name sent to the server never contains a slash, and it is the end
    of the name the handler was given: whatever precedes the last slash is
    dropped, and a name without a slash is sent as it is. *)
Theorem actualFileName_is_last_segment (fileName : string) :
  includes_slash (actualFileName fileName) = false
  ∧ (∃ pre, fileName = pre +:+ actualFileName fileName)
  ∧ (includes_slash fileName = false → actualFileName fileName = fileName).
Proof.
  unfold actualFileName.
  destruct (includes_slash fileName) eqn:Hs; [|split_and!; [done|by exists EmptyString|done]].
  destruct (split_slash_segments fileName) as (Hne & Hall & pre & Hpre & _).
  split_and!; [| by exists pre | done].
  destruct (split_slash fileName) as [|seg rest] eqn:E; [done|].
  assert (Hin : List.last (seg :: rest) EmptyString ∈ seg :: rest).
  { apply list_elem_of_In.
    destruct (exists_last (l := seg :: rest)) as (l' & x & Hl); [done|].
    rewrite Hl, last_last. apply in_or_app. right. by left. }
  by apply (proj1 (Forall_forall _ _) Hall) in Hin.
Qed.

Lemma underscores_to_spaces_spec (s : string) :
  ¬ In "_"%char (list_ascii_of_string (underscores_to_spaces s))
  ∧ String.length (underscores_to_spaces s) = String.length s.
Proof.
  induction s as [|c s [IH1 IH2]]; simpl; [tauto|].
  split; [|by rewrite IH2].
  intros [Hc|Hin]; [|done].
  destruct (Ascii.eqb c "_") eqn:E; [done|].
  apply Ascii.eqb_neq in E. done.
Qed.

Lemma strip_extension_spec (s : string) :
  String.prefix (strip_extension s) s = true
  ∧ String.length (strip_extension s) ≤ String.length s.
Proof.
  induction s as [|c s [IH1 IH2]]; simpl; [done|].
  destruct (Ascii.eqb c "." && extension_tail s); simpl; [split; [done|lia]|].
  destruct (ascii_dec c c); [|done]. split; [done|lia].
Qed.

(** The displayed title never contains an underscore, is never longer than
    the file name, and what is cut off is only an ending of the name. *)
Theorem display_title_shape (s : string) :
  ¬ In "_"%char (list_ascii_of_string (display_title s))
  ∧ String.length (display_title s) ≤ String.length s
  ∧ String.length (display_title s) = String.length (strip_extension s)
  ∧ String.prefix (strip_extension s) s = true.
Proof.
  unfold display_title.
  destruct (underscores_to_spaces_spec (strip_extension s)) as [H1 H2].
  destruct (strip_extension_spec s) as [H3 H4].
  split_and!; [done|lia|done|done].
Qed.

(** *** Other files are left alone *)

Lemma stored_urls_differ w f g u old :
  Inv w → g ≠ f →
  audioSources (page w) !! g = Some u →
  audioSources (page w) !! f = Some old →
  u ≠ old ∧ u < minted w.
Proof.
  intros HI Hne Hu Hold.
  pose proof (inv_stored w HI _ _ Hu) as Pu.
  pose proof (inv_stored w HI _ _ Hold) as Po.
  split; [congruence|]. by eapply inv_purpose.
Qed.

(** In every state the page reaches, a fetch for one file, whatever its
    answer, leaves the handle of every other file as it was: same entry in
    the handle map, and live exactly if it was live before. *)
Theorem fetch_leaves_other_files (ops : list Op) (f g : string)
    (reply : Outcome (Response unit)) :
  g ≠ f →
  let w := run ops initial in
  let w' := run_op w (OpFetch f reply) in
  audioSources (page w') !! g = audioSources (page w) !! g
  ∧ ∀ u, audioSources (page w) !! g = Some u → (u ∈ live w' ↔ u ∈ live w).
Proof.
  intros Hne w w'.
  assert (HI : Inv w) by apply Inv_run, Inv_initial.
  assert (Hlt : ∀ u, audioSources (page w) !! g = Some u → u < minted w).
  { intros u Hu. eapply inv_purpose; [done|]. by eapply inv_stored. }
  assert (Hdiff : ∀ u old, audioSources (page w) !! g = Some u →
                           audioSources (page w) !! f = Some old → u ≠ old).
  { intros u old Hu Hold. by eapply stored_urls_differ. }
  subst w'. simpl. cases; (split; [by rewrite ?lookup_insert_ne|]).
  all: intros u0 Hu0; try done.
  all: specialize (Hlt _ Hu0).
  all: try specialize (Hdiff _ _ Hu0 eq_refl).
  all: rewrite ?elem_of_union, ?elem_of_difference, ?elem_of_singleton.
  all: split; intros; destruct_or?; destruct_and?; try done; try lia; auto.
Qed.

Lemma fetch_leaves_other_files_witness :
  let w := run [OpFetch "a.mp3" good_stream] initial in
  let w' := run_op w (OpFetch "b.mp3" good_stream) in
  audioSources (page w') !! "a.mp3" = Some 0 ∧ 0 ∈ live w'.
Proof.
  intros w w'.
  destruct (fetch_leaves_other_files [OpFetch "a.mp3" good_stream] "b.mp3"
              "a.mp3" good_stream) as [Hs Hl]; [done|].
  split.
  - etrans; [exact Hs|]. vm_compute. reflexivity.
  - apply (Hl 0); [vm_compute; reflexivity|].
    apply (bool_decide_unpack _). vm_compute. exact I.
Defined.

(** In every state the page reaches, deleting one file, whatever the
    answer, keeps every descriptor of another file name in the list, and
    leaves the handle of every other file stored and as live as it was. *)
Theorem delete_leaves_other_files (ops : list Op) (f g : string)
    (reply : Outcome (Response DeleteResult)) :
  g ≠ f →
  let w := run ops initial in
  let w' := run_op w (OpDelete f reply) in
  (∀ file, file ∈ audioFiles (page w) → fileName file = g →
           file ∈ audioFiles (page w'))
  ∧ audioSources (page w') !! g = audioSources (page w) !! g
  ∧ ∀ u, audioSources (page w) !! g = Some u → (u ∈ live w' ↔ u ∈ live w).
Proof.
  intros Hne w w'.
  assert (HI : Inv w) by apply Inv_run, Inv_initial.
  assert (Hdiff : ∀ u old, audioSources (page w) !! g = Some u →
                           audioSources (page w) !! f = Some old → u ≠ old).
  { intros u old Hu Hold. by eapply stored_urls_differ. }
  subst w'. simpl. cases; split_and!; try done.
  all: try (intros file Hin Hname; apply list_elem_of_filter; split; [congruence|done]).
  all: try by rewrite lookup_delete_ne.
  all: intros u0 Hu0.
  all: specialize (Hdiff _ _ Hu0 eq_refl).
  all: rewrite elem_of_difference, elem_of_singleton; split; [tauto|auto].
Qed.

Lemma delete_leaves_other_files_witness :
  let w := run [OpList listed_two; OpFetch "a.mp3" good_stream;
                OpFetch "b.mp3" good_stream] initial in
  let w' := run_op w (OpDelete "a.mp3" delete_confirmed) in
  audioSources (page w') !! "b.mp3" = Some 1 ∧ 1 ∈ live w'.
Proof.
  intros w w'.
  destruct (delete_leaves_other_files
              [OpList listed_two; OpFetch "a.mp3" good_stream;
               OpFetch "b.mp3" good_stream] "a.mp3" "b.mp3" delete_confirmed)
    as (_ & Hs & Hl); [done|].
  split.
  - etrans; [exact Hs|]. vm_compute. reflexivity.
  - apply (Hl 1); [vm_compute; reflexivity|].
    apply (bool_decide_unpack _). vm_compute. exact I.
Defined.

End AudioFilesMore.

(** ** More about the session helpers *)

Module SessionMore.
Import Auth Session.


(** logout leaves nothing behind: the four session keys are gone, caches
    and timestamps are reset, exactly one [logout] event is dispatched, and
    the checks that follow answer "not authenticated" without any request. *)
Theorem logout_ends_the_session (st : State) (latency : Z)
    (reply : Outcome (Response User)) (forceRefresh : bool) :
  let st' := logout st in
  getToken st' = None
  ∧ isAuthenticated st' = false
  ∧ userCache st' = None
  ∧ trace st' = trace st ++ [DispatchEvent "logout"]
  ∧ checkAuthStatus latency reply st' = (st', false, false)
  ∧ getCurrentUser_start forceRefresh latency reply st'
    = (st', UserDone None, false).
Proof.
  assert (Htok : getToken (logout st) = None).
  { unfold getToken, getItem, logout. simpl.
    rewrite !(lookup_delete_ne _ _ "token") by done.
    by rewrite lookup_delete_eq. }
  simpl. split_and!; try done.
  - unfold isAuthenticated. by rewrite Htok.
  - unfold checkAuthStatus, checkAuthStatus_start. rewrite Htok.
    unfold removeItem, with_storage, logout. simpl.
    rewrite (delete_id _ "isAuthenticated");
      [|rewrite !(lookup_delete_ne _ _ "isAuthenticated") by done;
        by rewrite lookup_delete_eq].
    rewrite (delete_id _ "username");
      [done|rewrite !(lookup_delete_ne _ _ "username") by done;
            by rewrite lookup_delete_eq].
  - unfold getCurrentUser_start. by rewrite Htok.
Qed.

(** A verification that the server refuses clears the four session keys
    and the user cache, so the session reads as not authenticated; it
    dispatches no event at all, [logout] included. *)
Theorem refused_verification_clears_silently (response : Response User)
    (st : State) :
  ok response = false →
  blob response = Resolved () →
  let st' := (validateTokenAsync_finish (Resolved response) st).1 in
  (validateTokenAsync_finish (Resolved response) st).2 = false
  ∧ getToken st' = None
  ∧ isAuthenticated st' = false
  ∧ getItem "isAuthenticated" st' = None
  ∧ getItem "username" st' = None
  ∧ getItem "_authDispatchedEvent" st' = None
  ∧ userCache st' = None
  ∧ trace st' = trace st.
Proof.
  intros Hok Hblob. unfold validateTokenAsync_finish. rewrite Hok, Hblob. simpl.
  assert (Htok : getToken
    (removeItem "_authDispatchedEvent" (removeItem "token"
       (removeItem "username" (removeItem "isAuthenticated" st)))) = None).
  { unfold getToken, getItem. simpl. rewrite lookup_delete_ne by done.
    by rewrite lookup_delete_eq. }
  unfold isAuthenticated, getToken, getItem in *. simpl in *.
  split_and!; try done.
  - by rewrite Htok.
  - rewrite !(lookup_delete_ne _ _ "isAuthenticated") by done.
    by rewrite lookup_delete_eq.
  - rewrite !(lookup_delete_ne _ _ "username") by done.
    by rewrite lookup_delete_eq.
  - by rewrite lookup_delete_eq.
Qed.

Lemma refused_verification_clears_silently_witness :
  let response := {| status := 401; statusText := "Unauthorized";
                     body := BodyNotJson "expired" |} in
  isAuthenticated (validateTokenAsync_finish (Resolved response) verified).1 = false
  ∧ trace (validateTokenAsync_finish (Resolved response) verified).1
    = trace verified.
Proof.
  intros response.
  destruct (refused_verification_clears_silently response verified eq_refl eq_refl)
    as (_ & _ & H1 & _ & _ & _ & _ & H2).
  split; [exact H1|exact H2].
Defined.

(** A verification whose request or body fails keeps the session store and
    the trace as they were and only drops the user cache: the stored flag
    keeps answering for the session. *)
Theorem failed_verification_keeps_session (reply : Outcome (Response User))
    (st : State) :
  match reply with
  | Rejected _ => True
  | Resolved response =>
      (ok response = true ∧ ∃ e, json response = Rejected e)
      ∨ (ok response = false ∧ ∃ e, blob response = Rejected e)
  end →
  let st' := (validateTokenAsync_finish reply st).1 in
  (validateTokenAsync_finish reply st).2 = false
  ∧ sessionStorage st' = sessionStorage st
  ∧ isAuthenticated st' = isAuthenticated st
  ∧ userCache st' = None
  ∧ trace st' = trace st.
Proof.
  intros Hfail. unfold validateTokenAsync_finish.
  destruct reply as [response|err]; [|done].
  destruct Hfail as [[Hok [e He]]|[Hok [e He]]]; by rewrite Hok, He.
Qed.

Lemma failed_verification_keeps_session_witness :
  isAuthenticated (validateTokenAsync_finish network_down verified).1 = true
  ∧ (validateTokenAsync_finish network_down verified).2 = false.
Proof.
  destruct (failed_verification_keeps_session network_down verified I)
    as (H2 & _ & H1 & _).
  split; [|exact H2]. etrans; [exact H1|]. vm_compute. reflexivity.
Defined.

Lemma checkAuthStatus_start_flagged st token :
  getToken st = Some token →
  getItem "isAuthenticated" st = Some "true" →
  checkAuthStatus_start st
  = if (clock st - lastAuthCheck st <? AUTH_CACHE_DURATION)%Z
    then (st, AuthDone true)
    else (validateTokenAsync_start token st, AuthDoneVerifying true).
Proof.
  intros Htok Hflag. unfold checkAuthStatus_start.
  by rewrite Htok, bool_decide_eq_true_2.
Qed.



(** A verification that succeeds marks the session as authenticated,
    caches the user and stamps the cache with the current time; the stored
    user name becomes the one of the answer, unless that one is empty, in
    which case the stored name is kept. The token is not touched. *)
Theorem verification_stores_identity (response : Response User) (u : User)
    (st : State) :
  ok response = true →
  json response = Resolved u →
  let st' := (validateTokenAsync_finish (Resolved response) st).1 in
  (validateTokenAsync_finish (Resolved response) st).2 = true
  ∧ getItem "isAuthenticated" st' = Some "true"
  ∧ getItem "username" st'
    = (if String.eqb (username u) EmptyString then getItem "username" st
       else Some (username u))
  ∧ getItem "token" st' = getItem "token" st
  ∧ getItem "_authDispatchedEvent" st' = Some "true"
  ∧ userCache st' = Some u
  ∧ lastUserFetch st' = clock st.
Proof.
  intros Hok Hjson. unfold validateTokenAsync_finish. rewrite Hok, Hjson.
  unfold getItem.
  destruct (String.eqb (username u) EmptyString); simpl;
    rewrite ?(lookup_insert_ne _ "isAuthenticated" "_authDispatchedEvent"),
            ?(lookup_insert_ne _ "username" "_authDispatchedEvent") by done;
    case_bool_decide as Hm; simpl; split_and!; try done;
    by simplify_map_eq.
Qed.

Lemma verification_stores_identity_witness :
  getItem "username" verified = Some "alice"
  ∧ userCache verified = Some alice.
Proof.
  destruct (verification_stores_identity
              {| status := 200; statusText := "OK"; body := BodyJson alice |}
              alice (tick 5000 (checkAuthStatus_start at_home).1)
              eq_refl eq_refl) as (_ & _ & H1 & _ & _ & H2 & _).
  split; [exact H1|exact H2].
Defined.

(** *** getCurrentUser and its cache *)

(** Once the current-user endpoint has answered with a user, a later call
    without forced refresh, made while the auth check is still cached and
    less than five minutes after the time read before that request, returns
    that user without sending anything; a forced refresh in the same
    situation sends the request again. *)
Theorem cached_user_round_trip (now dt : Z) (response : Response User)
    (u : User) (st : State) (latency : Z) (reply : Outcome (Response User)) :
  ok response = true →
  json response = Resolved u →
  is_Some (getToken st) →
  getItem "isAuthenticated" st = Some "true" →
  (clock st + dt - lastAuthCheck st < AUTH_CACHE_DURATION)%Z →
  (clock st + dt - now < USER_CACHE_DURATION)%Z →
  let st' := tick dt (getCurrentUser_finish now (Resolved response) st).1 in
  getCurrentUser_start false latency reply st' = (st', UserDone (Some u), false)
  ∧ getCurrentUser_start true latency reply st'
    = (emit (NetRequest "GET" "/users/me") st', UserFetching (clock st + dt), false).
Proof.
  intros Hok Hjson [token Htok] Hflag Hauth Huser.
  unfold getCurrentUser_finish. rewrite Hok, Hjson. simpl.
  set (st' := tick dt _).
  assert (Ht' : getToken st' = Some token) by done.
  assert (Hcheck : checkAuthStatus latency reply st' = (st', true, false)).
  { unfold checkAuthStatus.
    rewrite (checkAuthStatus_start_flagged st' token) by done. simpl.
    by rewrite (proj2 (Z.ltb_lt _ _) Hauth). }
  unfold getCurrentUser_start. rewrite Ht', Hcheck. simpl.
  by rewrite (proj2 (Z.ltb_lt _ _) Huser).
Qed.

Lemma cached_user_round_trip_witness :
  let st' := tick 10000 (getCurrentUser_finish 1030000 me_alice cached_session).1 in
  getCurrentUser_start false 0 network_down st' = (st', UserDone (Some alice), false).
Proof.
  intros st'.
  destruct (cached_user_round_trip 1030000 10000
              {| status := 200; statusText := "OK"; body := BodyJson alice |}
              alice cached_session 0 network_down) as [H _].
  - reflexivity.
  - reflexivity.
  - vm_compute. eauto.
  - vm_compute. reflexivity.
  - vm_compute. reflexivity.
  - vm_compute. reflexivity.
  - exact H.
Defined.

(** *** withAuth *)

(** withAuth sets the [Authorization] header to the bearer token of the
    store, replacing one the caller supplied, and copies every other header,
    the method and the body; without a token it adds nothing and keeps the
    caller's headers. Applying it twice is the same as applying it once. *)
Theorem withAuth_sets_bearer (options : AuthFetch.Options) (st : State) :
  let result := AuthFetch.withAuth options st in
  let given := default ∅ (AuthFetch.headers options) in
  AuthFetch.method result = AuthFetch.method options
  ∧ AuthFetch.body result = AuthFetch.body options
  ∧ (∃ h, AuthFetch.headers result = Some h
          ∧ h !! "Authorization"
            = match getToken st with
              | Some t => Some ("Bearer " +:+ t)
              | None => given !! "Authorization"
              end
          ∧ ∀ k, k ≠ "Authorization" → h !! k = given !! k)
  ∧ AuthFetch.withAuth result st = result.
Proof.
  unfold AuthFetch.withAuth. simpl.
  destruct (getToken st) as [t|]; simpl; split_and!; try done.
  - eexists. split; [done|]. split; [by rewrite lookup_insert_eq|].
    intros k Hk. by rewrite lookup_insert_ne.
  - by rewrite insert_insert_eq.
  - eexists. by split.
Qed.

(** *** The login page and the home page *)

(** A login that does not go through (a missing field, a refused or failed
    request, an undecodable body) leaves the session store untouched,
    dispatches no [login] event, does not navigate, and shows a non-empty
    error; with a missing field nothing is sent at all. *)
Theorem failed_login_leaves_session (form : Login.Form)
    (reply : Outcome (Response Login.LoginBody)) (st : State) :
  Terms.login_succeeds form reply = false →
  let form' := (Login.handleLogin form reply st).1 in
  let st' := (Login.handleLogin form reply st).2 in
  sessionStorage st' = sessionStorage st
  ∧ login_events (trace st') = login_events (trace st)
  ∧ (RouterPush "/" ∉ drop (length (trace st)) (trace st'))
  ∧ Login.error form' ≠ EmptyString
  ∧ (Login.username form = EmptyString ∨ Login.password form = EmptyString →
     trace st' = trace st).
Proof.
  intros Hfail. unfold Terms.login_succeeds in Hfail. unfold Login.handleLogin.
  simpl.
  destruct (String.eqb (Login.username form) EmptyString) eqn:Hu; simpl in *.
  { split_and!; try done. rewrite drop_all. set_solver. }
  destruct (String.eqb (Login.password form) EmptyString) eqn:Hp; simpl in *.
  { split_and!; try done. rewrite drop_all. set_solver. }
  apply String.eqb_neq in Hu, Hp.
  assert (Hdrop : ∀ e : Effect, drop (length (trace st)) (trace st ++ [e]) = [e]).
  { intros e. by rewrite drop_app_length. }
  assert (Hev : login_events (trace st ++ [NetRequest "POST" "/login"])
                = login_events (trace st)).
  { unfold login_events. rewrite filter_app, length_app. simpl. lia. }
  destruct reply as [response|err]; simpl.
  - destruct (ok response); simpl in *.
    + destruct (json response); [done|]. simpl.
      split_and!; try done; [rewrite Hdrop; set_solver|tauto].
    + assert (Hor : ∀ o, Login.or_else o "Login failed. Please try again."
                         ≠ EmptyString).
      { intros [x|]; simpl; [|done].
        destruct (String.eqb x EmptyString) eqn:E; [done|].
        by apply String.eqb_neq in E. }
      destruct (status response =? 401); simpl;
        (split_and!; try done; [rewrite Hdrop; set_solver|tauto]).
  - split_and!; try done; [rewrite Hdrop; set_solver|tauto].
Qed.

Lemma failed_login_leaves_session_witness :
  let reply := Resolved {| status := 401; statusText := "Unauthorized";
                           body := BodyNotJson "no" |} in
  sessionStorage (Login.handleLogin login_form reply (initial 0)).2 = ∅
  ∧ Login.error (Login.handleLogin login_form reply (initial 0)).1
    = "Invalid username or password.".
Proof.
  intros reply.
  destruct (failed_login_leaves_session login_form reply (initial 0) eq_refl)
    as (H & _).
  split; [exact H|reflexivity].
Defined.

(** After a login that goes through, the synchronous check and the home
    page agree with the token that came back: with a non-empty token the
    session is authenticated and the home page dispatches [login] without
    redirecting; with an empty token the login page has announced the login
    and navigated, yet the home page redirects back to the login route. *)
Theorem home_after_login (form : Login.Form) (response : Response Login.LoginBody)
    (data : Login.LoginBody) (p : Home.Page) (st : State) :
  Login.username form ≠ EmptyString →
  Login.password form ≠ EmptyString →
  ok response = true →
  json response = Resolved data →
  let st1 := (Login.handleLogin form (Resolved response) st).2 in
  let home := Home.checkAuth p st1 in
  isAuthenticated st1 = negb (String.eqb (Login.access_token data) EmptyString)
  ∧ Home.isAuth home.1 = isAuthenticated st1
  ∧ Home.loading home.1 = false
  ∧ trace home.2
    = trace st1 ++ [if isAuthenticated st1 then DispatchEvent "login"
                    else RouterPush "/login"].
Proof.
  intros Hu Hp Hok Hjson. unfold Login.handleLogin. simpl.
  apply String.eqb_neq in Hu, Hp. rewrite Hu, Hp, Hok, Hjson. simpl.
  unfold Home.checkAuth, isAuthenticated, getToken, getItem. simpl.
  rewrite !(lookup_insert_ne _ _ "token") by done.
  rewrite lookup_insert_eq.
  rewrite (lookup_insert_ne _ "username" "isAuthenticated") by done.
  rewrite lookup_insert_eq.
  destruct (String.eqb (Login.access_token data) EmptyString); simpl; done.
Qed.

Lemma home_after_login_witness :
  isAuthenticated logged_in = true
  ∧ Home.isAuth (Home.checkAuth {| Home.loading := true; Home.isAuth := false |}
                   logged_in).1 = true.
Proof.
  destruct (home_after_login login_form
              {| status := 200; statusText := "OK";
                 body := BodyJson {| Login.access_token := "tok";
                                     Login.detail := None |} |}
              {| Login.access_token := "tok"; Login.detail := None |}
              {| Home.loading := true; Home.isAuth := false |} (initial 1000000))
    as (H1 & H2 & _); [done|done|reflexivity|reflexivity|].
  split; [exact H1|]. etrans; [exact H2|exact H1].
Defined.

End SessionMore.

(** ** The layout *)

Module LayoutFacts.
Import Auth Session Layout.

(** An awaited verification of a session that has a token and no stored
    flag answers what the synchronous check then reads from the store. *)
Lemma validateTokenAsync_finish_agrees (reply : Outcome (Response User))
    (st : State) (t : string) :
  sessionStorage st !! "token" = Some t →
  String.eqb t EmptyString = false →
  sessionStorage st !! "isAuthenticated" ≠ Some "true" →
  (validateTokenAsync_finish reply st).2
  = isAuthenticated (validateTokenAsync_finish reply st).1.
Proof.
  intros Ht Et Hflag.
  unfold validateTokenAsync_finish, validateTokenAsync_catch, isAuthenticated,
    getToken, getItem.
  assert (Hno : false = bool_decide (is_Some (if String.eqb t EmptyString
                                               then None else Some t))
                        && bool_decide (sessionStorage st !! "isAuthenticated"
                                        = Some "true")).
  { rewrite (bool_decide_eq_false_2 _ Hflag). by rewrite andb_false_r. }
  destruct reply as [response|err]; simpl; [|by rewrite Ht].
  destruct (ok response); simpl.
  - destruct (json response) as [userData|err]; simpl; [|by rewrite Ht].
    destruct (String.eqb (Auth.username userData) EmptyString); simpl;
      match goal with
      | |- context [if bool_decide ?P then _ else _] => destruct (bool_decide P)
      end; simpl; simplify_map_eq; rewrite Et; done.
  - destruct (blob response); simpl; [|by rewrite Ht].
    by simplify_map_eq.
Qed.

(** After updateAuthState the navigation bar agrees with the store. *)
Lemma updateAuthState_nav (latency : Z) (reply : Outcome (Response User))
    (n : Nav) (st : State) :
  let n' := (updateAuthState latency reply n st).1.1 in
  let st' := (updateAuthState latency reply n st).1.2 in
  isAuthState n' = isAuthenticated st'
  ∧ Layout.username n' = (if isAuthState n' then storedUsername st' else EmptyString)
  ∧ authChecked n' = true
  ∧ mounted n' = mounted n.
Proof.
  unfold updateAuthState, checkAuthStatus, checkAuthStatus_start, isAuthenticated,
    storedUsername, getToken, getItem.
  destruct (sessionStorage st !! "token") as [t|] eqn:Ht; simpl.
  2:{ rewrite !lookup_delete_ne by done. rewrite Ht. simpl.
      by case_bool_decide. }
  destruct (String.eqb t EmptyString) eqn:Et; simpl.
  { rewrite !(lookup_delete_ne _ _ "token") by done. rewrite Ht, Et. simpl.
      by case_bool_decide. }
  case_bool_decide as Hflag; simpl.
  - destruct (_ <? _)%Z; simpl; rewrite Ht, Et; simpl;
      rewrite (bool_decide_eq_true_2 _ Hflag); done.
  - pose proof (validateTokenAsync_finish_agrees reply
                  (tick latency (validateTokenAsync_start t st)) t Ht Et Hflag)
      as Hagree.
    destruct (validateTokenAsync_finish reply _) as [st' r]. simpl in *.
    unfold isAuthenticated, getToken, getItem in Hagree. rewrite <- Hagree.
    by destruct r.
Qed.

(** When the layout mounts before any check was made,
    the mount effect leaves the navigation bar mounted and checked, showing
    a user exactly when the synchronous [isAuthenticated] check holds on the
    store it leaves, with the stored user name (empty when signed out).
    Run again on that navigation bar, as React does when [authChecked]
    changes, the effect changes neither the bar nor the store and sends
    nothing. *)
Theorem mount_settles_nav (latency : Z) (reply : Outcome (Response User))
    (n : Nav) (st : State) :
  authChecked n = false →
  let n' := (mountEffect latency reply n st).1.1 in
  let st' := (mountEffect latency reply n st).1.2 in
  mounted n' = true
  ∧ authChecked n' = true
  ∧ isAuthState n' = isAuthenticated st'
  ∧ Layout.username n' = (if isAuthState n' then storedUsername st' else EmptyString)
  ∧ ∀ latency' reply' st'', mountEffect latency' reply' n' st'' = (n', st'', false).
Proof.
  intros Hn. unfold mountEffect. simpl. rewrite Hn.
  match goal with
  | |- context [updateAuthState latency reply ?m st] =>
      pose proof (updateAuthState_nav latency reply m st) as (H1 & H2 & H3 & H4);
      destruct (updateAuthState latency reply m st) as [[n' st'] v] eqn:E
  end.
  simpl in *.
  assert (Hm : mounted n' = true) by (rewrite H4; by case_bool_decide).
  split_and!; try done.
  intros latency' reply' st''. rewrite H3. clear E H1 H2 H4.
  destruct n'; simpl in *. unfold setMounted. simpl. by rewrite Hm.
Qed.

Lemma mount_settles_nav_witness :
  let n := {| isAuthState := false; Layout.username := EmptyString;
              mounted := false; authChecked := false |} in
  isAuthState (mountEffect 0 network_down n cached_session).1.1 = true
  ∧ Layout.username (mountEffect 0 network_down n cached_session).1.1 = "alice".
Proof.
  intros n.
  destruct (mount_settles_nav 0 network_down n cached_session eq_refl)
    as (_ & _ & H1 & H2 & _).
  split.
  - etrans; [exact H1|]. vm_compute. reflexivity.
  - etrans; [exact H2|]. vm_compute. reflexivity.
Defined.

(** The logout button of the layout hides the user in the
    navigation bar, removes the token, and appends exactly the [logout]
    event and the navigation to the login route to the trace. A check of the
    layout made afterwards keeps the bar signed out and sends no request,
    and the home page redirects to the login route. *)
Theorem logout_button (latency : Z) (reply : Outcome (Response User))
    (n : Nav) (p : Home.Page) (st : State) :
  let n1 := (handleLogout n st).1 in
  let st1 := (handleLogout n st).2 in
  isAuthState n1 = false
  ∧ Layout.username n1 = EmptyString
  ∧ getToken st1 = None
  ∧ trace st1 = trace st ++ [DispatchEvent "logout"; RouterPush "/login"]
  ∧ isAuthState (updateAuthState latency reply n1 st1).1.1 = false
  ∧ trace (updateAuthState latency reply n1 st1).1.2 = trace st1
  ∧ (updateAuthState latency reply n1 st1).2 = false
  ∧ Home.isAuth (Home.checkAuth p st1).1 = false
  ∧ trace (Home.checkAuth p st1).2 = trace st1 ++ [RouterPush "/login"].
Proof.
  unfold handleLogout, updateAuthState, checkAuthStatus, checkAuthStatus_start,
    Home.checkAuth, isAuthenticated, logout, getToken, getItem. simpl.
  rewrite !(lookup_delete_ne _ _ "token") by done. rewrite lookup_delete_eq.
  rewrite !(lookup_delete_ne _ "_authDispatchedEvent" "isAuthenticated") by done.
  rewrite !(lookup_delete_ne _ "username" "isAuthenticated") by done.
  rewrite lookup_delete_eq. simpl.
  split_and!; try done. by rewrite <- app_assoc.
Qed.

End LayoutFacts.
(** ** The upload page *)

Module UploadMore.
Import Upload UploadFile.

(** handleSubmit sends the upload exactly
    when a file is chosen, a category is chosen and a current user was
    found; it never changes the chosen file, category, description or
    length. With a missing file or category it only sets a non-empty error.
    With both present it marks the page as uploading and clears the error,
    and without a current user it then navigates to the login route,
    leaving the page marked as uploading. *)
Theorem submit_needs_file_category_user (currentUser : option Auth.User)
    (p : Page) (tr : list Effect) :
  let p' := (handleSubmit currentUser p tr).1.1 in
  let tr' := (handleSubmit currentUser p tr).1.2 in
  let sent := (handleSubmit currentUser p tr).2 in
  (sent = true ↔
     is_Some (file p) ∧ audioCategory p ≠ EmptyString ∧ is_Some currentUser)
  ∧ Auth.requests tr' = Auth.requests tr + (if sent then 1 else 0)
  ∧ file p' = file p
  ∧ audioCategory p' = audioCategory p
  ∧ audioDescription p' = audioDescription p
  ∧ audioLength p' = audioLength p
  ∧ (file p = None ∨ audioCategory p = EmptyString →
     tr' = tr ∧ error p' ≠ EmptyString ∧ isUploading p' = isUploading p)
  ∧ (is_Some (file p) → audioCategory p ≠ EmptyString →
     isUploading p' = true ∧ error p' = EmptyString
     ∧ (currentUser = None → tr' = tr ++ [RouterPush "/login"])).
Proof.
  unfold handleSubmit.
  assert (Hsnoc : ∀ e, Auth.requests (tr ++ [e])
                       = Auth.requests tr + (if Auth.is_request e then 1 else 0)).
  { intros e. unfold Auth.requests. rewrite List.filter_app, length_app.
    simpl. by destruct (Auth.is_request e). }
  assert (Hn : ∀ A, ¬ is_Some (@None A)) by (by intros A [? ?]).
  destruct (file p) as [f|] eqn:Hf; simpl.
  - destruct (String.eqb (audioCategory p) EmptyString) eqn:Hc; simpl.
    + apply String.eqb_eq in Hc.
      split_and!; try done; try lia; naive_solver.
    + apply String.eqb_neq in Hc.
      destruct currentUser as [u|]; simpl; rewrite ?Hsnoc; simpl;
        split_and!; try done; try lia; naive_solver.
  - split_and!; try done; try lia; naive_solver.
Qed.

(** What the [load] listener does with an answer whose body
    is a JSON object. In every case it ends the upload without throwing.
    With a 2xx status it resets the file, category, description and length,
    sets the progress to 100 and shows the file name of the answer, so that
    submitting again sends nothing and asks for a file. With another status
    it keeps the whole form and shows the non-empty [detail] of the answer,
    or [Upload failed]. *)
Theorem upload_answer (status : nat) (filename detail : option string)
    (currentUser : option Auth.User) (p : Page) (tr : list Effect) :
  let p' := (onLoad status (ParsedObject filename detail) p).1 in
  (onLoad status (ParsedObject filename detail) p).2 = None
  ∧ isUploading p' = false
  ∧ if (200 <=? status) && (status <? 300)
    then file p' = None
         ∧ audioCategory p' = EmptyString
         ∧ audioDescription p' = EmptyString
         ∧ audioLength p' = None
         ∧ uploadProgress p' = 100
         ∧ error p' = error p
         ∧ message p' = "File uploaded successfully: " +:+ show filename
         ∧ handleSubmit currentUser p' tr
           = (setError "Please select a file to upload" p', tr, false)
    else file p' = file p
         ∧ audioCategory p' = audioCategory p
         ∧ audioDescription p' = audioDescription p
         ∧ audioLength p' = audioLength p
         ∧ uploadProgress p' = uploadProgress p
         ∧ message p' = message p
         ∧ error p' ≠ EmptyString
         ∧ error p' = match detail with
                      | Some d => if String.eqb d EmptyString
                                  then "Upload failed" else d
                      | None => "Upload failed"
                      end.
Proof.
  unfold onLoad. destruct ((200 <=? status) && (status <? 300)); simpl.
  - done.
  - split_and!; try done.
    destruct detail as [d|]; simpl; [|done].
    destruct (String.eqb d EmptyString) eqn:E; [done|].
    by apply String.eqb_neq in E.
Qed.

(** Choosing an audio file stores it, clears
    the error and creates one object URL that was not live before; the
    length shown is still the one of the previous choice. Whichever of the
    two events of the audio element follows, the URL is revoked, so the live
    URLs are those from before the choice; [loadedmetadata] stores the
    length, [error] keeps the file chosen and the previous length. *)
Theorem chosen_file_url_is_released (f : File) (d : nat) (w : World) :
  Terms.accepted (Some f) = true →
  (∀ u, u ∈ live w → u < minted w) →
  ∃ u w1,
    handleFileChange (Some f) w = (w1, Some u)
    ∧ (u ∉ live w)
    ∧ live w1 = {[u]} ∪ live w
    ∧ file (page w1) = Some f
    ∧ error (page w1) = EmptyString
    ∧ audioLength (page w1) = audioLength (page w)
    ∧ live (onLoadedMetadata d u w1) = live w
    ∧ audioLength (page (onLoadedMetadata d u w1)) = Some d
    ∧ live (onAudioError u w1) = live w
    ∧ file (page (onAudioError u w1)) = Some f
    ∧ audioLength (page (onAudioError u w1)) = audioLength (page w)
    ∧ error (page (onAudioError u w1)) = "Could not read audio file length".
Proof.
  intros Hacc Hfresh. unfold Terms.accepted in Hacc.
  unfold handleFileChange. rewrite Hacc. simpl.
  assert (Hnew : minted w ∉ live w).
  { intros Hin. apply Hfresh in Hin. lia. }
  eexists _, _. split; [reflexivity|]. simpl.
  split_and!; try done; set_solver.
Qed.

Lemma chosen_file_url_is_released_witness :
  ∃ u w1,
    handleFileChange (Some {| name := "a.mp3"; type := "audio/mpeg" |}) initial
    = (w1, Some u)
    ∧ live (onLoadedMetadata 42 u w1) = ∅.
Proof.
  destruct (chosen_file_url_is_released
              {| name := "a.mp3"; type := "audio/mpeg" |} 42 initial)
    as (u & w1 & H1 & _ & _ & _ & _ & _ & H2 & _).
  - reflexivity.
  - intros u Hu. simpl in Hu. set_solver.
  - exists u, w1. split; [exact H1|exact H2].
Defined.

(** When the file dialog gives no file, or
    a file whose type does not start with [audio/], no object URL is created
    and the file chosen before stays chosen. An empty selection forgets the
    length and keeps the error; a file of another type keeps the length and
    sets an error. A submission made afterwards is sent or not as it would
    have been before. *)
Theorem rejected_selection_keeps_file (selectedFile : option File) (w : World)
    (currentUser : option Auth.User) (tr : list Effect) :
  Terms.accepted selectedFile = false →
  let w' := (handleFileChange selectedFile w).1 in
  (handleFileChange selectedFile w).2 = None
  ∧ live w' = live w
  ∧ minted w' = minted w
  ∧ UploadFile.trace w' = UploadFile.trace w
  ∧ file (page w') = file (page w)
  ∧ match selectedFile with
    | None => audioLength (page w') = None ∧ error (page w') = error (page w)
    | Some _ => audioLength (page w') = audioLength (page w)
                ∧ error (page w') = "Please select an audio file"
    end
  ∧ (handleSubmit currentUser (page w') tr).2
    = (handleSubmit currentUser (page w) tr).2.
Proof.
  intros Hacc. unfold Terms.accepted in Hacc. unfold handleFileChange, handleSubmit.
  destruct selectedFile as [f|]; [rewrite Hacc|]; simpl; split_and!; try done;
    (destruct (file (page w)); simpl; [|done]);
    (destruct (String.eqb _ _); simpl; [done|]);
    by destruct currentUser.
Qed.

Lemma rejected_selection_keeps_file_witness :
  file (page (handleFileChange None
                {| page := uploading; live := ∅; minted := 1;
                   UploadFile.trace := [] |}).1)
  = Some {| name := "a.mp3"; type := "audio/mpeg" |}.
Proof.
  destruct (rejected_selection_keeps_file None
              {| page := uploading; live := ∅; minted := 1;
                 UploadFile.trace := [] |} None [] eq_refl)
    as (_ & _ & _ & _ & H & _).
  exact H.
Defined.

End UploadMore.

(** ** The user management page *)

Module UsersFacts.
Import Users.


(** When the forced refresh of the
    current user gives no user, or one whose role is not [admin], a
    submission sends no request and leaves the table and the dialog as they
    are; it shows an error, ends the submitting state and sets the timer.
    When the timer fires the session is logged out and the page navigates
    to the login route. *)
Theorem submit_without_admin_sends_nothing (view : Page)
    (user : option Auth.User) (reply : Outcome (Response Answer))
    (p : Page) (st : Auth.State) :
  not_admin user = true →
  isSubmitting view = false →
  let p' := (handleSubmit view user reply p st).1.1 in
  let st' := (handleSubmit view user reply p st).1.2 in
  st' = st
  ∧ (handleSubmit view user reply p st).2 = true
  ∧ users p' = users p
  ∧ isModalOpen p' = isModalOpen p
  ∧ selectedUser p' = selectedUser p
  ∧ formData p' = formData p
  ∧ isSubmitting p' = false
  ∧ error p'
    = Some "Your session has expired or you no longer have admin privileges"
  ∧ Auth.getToken (onTimeout st') = None
  ∧ Auth.trace (onTimeout st')
    = Auth.trace st ++ [DispatchEvent "logout"; RouterPush "/login"].
Proof.
  intros Hna Hsub. unfold handleSubmit. rewrite Hna, Hsub. simpl.
  split_and!; try done.
  - unfold onTimeout, Auth.logout, Auth.getToken, Auth.getItem. simpl.
    rewrite !(lookup_delete_ne _ _ "token") by done.
    by rewrite lookup_delete_eq.
  - by rewrite <- app_assoc.
Qed.

Lemma submit_without_admin_sends_nothing_witness :
  (handleSubmit deleting_bob None accepted deleting_bob Session.cached_session).2
  = true
  ∧ users (handleSubmit deleting_bob None accepted deleting_bob
             Session.cached_session).1.1 = [bob; carol].
Proof.
  destruct (submit_without_admin_sends_nothing deleting_bob None accepted
              deleting_bob Session.cached_session eq_refl eq_refl)
    as (_ & H1 & H2 & _).
  split; [exact H1|exact H2].
Defined.

(** A confirmed deletion that is answered
    with an OK status sends one DELETE request for the selected user name,
    and replaces the table by the rows of the render that do not carry that
    name, in their order; it closes the dialog, clears the selection and the
    error and ends the submitting state. *)
Theorem confirmed_delete_removes_user (view : Page) (user : option Auth.User)
    (selected : UserRow) (response : Response Answer)
    (p : Page) (st : Auth.State) :
  isSubmitting view = false →
  not_admin user = false →
  modalMode view = "delete" →
  selectedUser view = Some selected →
  ok response = true →
  let p' := (handleSubmit view user (Resolved response) p st).1.1 in
  let st' := (handleSubmit view user (Resolved response) p st).1.2 in
  Auth.trace st'
  = Auth.trace st ++ [NetRequest "DELETE" ("/users/" +:+ username selected)]
  ∧ (∀ r, r ∈ users p' ↔ r ∈ users view ∧ username r ≠ username selected)
  ∧ users p' `sublist_of` users view
  ∧ isModalOpen p' = false
  ∧ selectedUser p' = None
  ∧ error p' = None
  ∧ isSubmitting p' = false
  ∧ (handleSubmit view user (Resolved response) p st).2 = false.
Proof.
  intros Hsub Hadm Hmode Hsel Hok. unfold handleSubmit.
  rewrite Hsub, Hadm, Hmode, Hsel, Hok. simpl.
  split_and!; try done.
  - intros r. rewrite list_elem_of_filter. tauto.
  - apply sublist_filter.
Qed.

Lemma confirmed_delete_removes_user_witness :
  users (handleSubmit deleting_bob (Some Session.alice) accepted deleting_bob
           Session.cached_session).1.1 `sublist_of` [bob; carol]
  ∧ isModalOpen (handleSubmit deleting_bob (Some Session.alice) accepted
                   deleting_bob Session.cached_session).1.1 = false.
Proof.
  destruct (confirmed_delete_removes_user deleting_bob (Some Session.alice) bob
              {| status := 200; statusText := "OK";
                 body := BodyJson {| row := bob; detail := None |} |}
              deleting_bob Session.cached_session
              eq_refl eq_refl eq_refl eq_refl eq_refl)
    as (_ & _ & H1 & H2 & _).
  split; [exact H1|exact H2].
Defined.








End UsersFacts.
